(** * FileWatcher: a shallow embedding of [src/FileWatcher.ts]

    The class [FileWatcher] keeps a registry of chokidar subscriptions, a
    two-level handler table, three configuration sets and the set of files
    seen by the initial scan.  Its methods are embedded below as functions
    over an explicit engine state; the calls it makes into [node:path],
    [node:fs] and chokidar are embedded as small models of those interfaces
    (POSIX flavour). *)

From Stdlib Require Import Ascii String List Bool Arith Lia.
From stdpp Require Import base option list gmap strings.

Local Open Scope string_scope.
Local Open Scope list_scope.

(** ** Characters and strings as JavaScript sees them (ASCII fragment) *)

Module Chars.

Definition chars := list ascii.

Definition of_string (s : string) : chars := list_ascii_of_string s.
Definition to_string (l : chars) : string := string_of_list_ascii l.

Definition isSlash (c : ascii) : bool := Ascii.eqb c "/"%char.
Definition isDot (c : ascii) : bool := Ascii.eqb c "."%char.

Fixpoint eqb (a b : chars) : bool :=
  match a, b with
  | [], [] => true
  | x :: a', y :: b' => Ascii.eqb x y && eqb a' b'
  | _, _ => false
  end.

(** [dropWhile] and [takeWhile] over a list of characters. *)
Fixpoint dropWhile (p : ascii -> bool) (l : chars) : chars :=
  match l with
  | [] => []
  | c :: l' => if p c then dropWhile p l' else l
  end.

Fixpoint takeWhile (p : ascii -> bool) (l : chars) : chars :=
  match l with
  | [] => []
  | c :: l' => if p c then c :: takeWhile p l' else []
  end.

(** [String.prototype.toLowerCase] for text of ASCII characters: the
    letters A to Z are lowered and nothing else is.  On other text
    JavaScript lowers more; the two methods that lower-case have a general
    form that takes the lower-casing as a parameter ([handleEventWith],
    [setAllowedExtensionsWith]), of which this function gives the instance
    for ASCII text. *)
Definition lowerChar (c : ascii) : ascii :=
  let n := nat_of_ascii c in
  if ((65 <=? n) && (n <=? 90))%nat then ascii_of_nat (n + 32)%nat else c.

Definition toLowerCase (s : string) : string :=
  to_string (map lowerChar (of_string s)).

(** Pieces of a path between separators, empty pieces included. *)
Fixpoint splitAux (cur : chars) (l : chars) : list chars :=
  match l with
  | [] => [rev cur]
  | c :: l' => if isSlash c then rev cur :: splitAux [] l' else splitAux (c :: cur) l'
  end.

Definition split (l : chars) : list chars := splitAux [] l.

Fixpoint joinWith (sep : chars) (segs : list chars) : chars :=
  match segs with
  | [] => []
  | [s] => s
  | s :: rest => s ++ sep ++ joinWith sep rest
  end.

End Chars.

(** ** [node:path], POSIX flavour

    Only the functions that [FileWatcher.ts] calls: [basename], [extname],
    [dirname], [join], [resolve] and [relative]. *)

Module Path.
Import Chars.

(** [path.basename(p)]: the last portion of [p], trailing separators
    ignored. *)
Definition basenameC (p : chars) : chars :=
  rev (takeWhile (fun c => negb (isSlash c)) (dropWhile isSlash (rev p))).

Definition basename (p : string) : string := to_string (basenameC (of_string p)).

(** [path.extname(p)]: from the last dot of the last portion to its end;
    empty when there is no dot, when the only dot is the first character
    of the portion, or when the portion is [..]. *)
Definition extnameC (p : chars) : chars :=
  let part := basenameC p in
  let rpart := rev part in
  let rext := takeWhile (fun c => negb (isDot c)) rpart in
  match dropWhile (fun c => negb (isDot c)) rpart with
  | [] => []                                   (* no dot at all *)
  | _dot :: rpre =>
      match rpre with
      | [] => []                               (* the dot opens the portion *)
      | _ => if eqb part [ "."%char; "."%char ] then []
             else "."%char :: rev rext
      end
  end.

Definition extname (p : string) : string := to_string (extnameC (of_string p)).

(** [path.dirname(p)].  Node scans [p] from its end down to index 1 for
    the separator that closes the directory part: trailing separators are
    skipped, then the last portion, and the first separator met after a
    non-separator gives [end]. *)
Definition dirnameC (p : chars) : chars :=
  match p with
  | [] => [ "."%char ]
  | c0 :: rest =>
      let hasRoot := isSlash c0 in
      (* the characters at indices len-1 .. 1, scanned downwards *)
      let r1 := dropWhile isSlash (rev rest) in
      let r2 := dropWhile (fun c => negb (isSlash c)) r1 in
      match r2 with
      | [] => if hasRoot then [ "/"%char ] else [ "."%char ]
      | _sep :: before =>
          (* [end] is the index of [_sep], that is [length r2] *)
          if hasRoot && (length r2 =? 1)%nat then [ "/"%char; "/"%char ]
          else c0 :: rev before
      end
  end.

Definition dirname (p : string) : string := to_string (dirnameC (of_string p)).

(** [normalizeString(path, allowAboveRoot)]: empty portions and [.] are
    dropped, [..] removes the portion before it; above the start, [..] is
    kept only when [allowAboveRoot]. *)
Definition dotdot : chars := [ "."%char; "."%char ].

Definition normStep (allowAboveRoot : bool) (stack : list chars) (seg : chars)
  : list chars :=
  if eqb seg [] || eqb seg [ "."%char ] then stack
  else if eqb seg dotdot then
    match stack with
    | top :: below =>
        if eqb top dotdot then (if allowAboveRoot then dotdot :: stack else stack)
        else below
    | [] => if allowAboveRoot then [dotdot] else []
    end
  else seg :: stack.

Definition normalizeString (p : chars) (allowAboveRoot : bool) : chars :=
  joinWith [ "/"%char ] (rev (fold_left (normStep allowAboveRoot) (split p) [])).

Definition isAbsoluteC (p : chars) : bool :=
  match p with c :: _ => isSlash c | [] => false end.

Definition isAbsolute (p : string) : bool := isAbsoluteC (of_string p).

Definition endsWithSlash (p : chars) : bool :=
  match rev p with c :: _ => isSlash c | [] => false end.

(** [path.normalize(p)]. *)
Definition normalizeC (p : chars) : chars :=
  match p with
  | [] => [ "."%char ]
  | _ =>
      let isAbs := isAbsoluteC p in
      let trailing := endsWithSlash p in
      let q := normalizeString p (negb isAbs) in
      match q with
      | [] => if isAbs then [ "/"%char ]
              else if trailing then [ "."%char; "/"%char ] else [ "."%char ]
      | _ => (if isAbs then [ "/"%char ] else []) ++ q
               ++ (if trailing then [ "/"%char ] else [])
      end
  end.

(** [path.join(a, b)]: the non-empty arguments glued with a separator,
    then normalised. *)
Definition joinC (a b : chars) : chars :=
  match a, b with
  | [], [] => [ "."%char ]
  | [], _ => normalizeC b
  | _, [] => normalizeC a
  | _, _ => normalizeC (a ++ "/"%char :: b)
  end.

Definition join (a b : string) : string :=
  to_string (joinC (of_string a) (of_string b)).

(** [path.resolve(...args)] for a process whose working directory is
    [cwd]: the arguments are prepended from the right until the path is
    absolute, the working directory coming last. *)
Fixpoint resolveLoop (rargs : list chars) (resolvedPath : chars) : chars * bool :=
  match rargs with
  | [] => (resolvedPath, false)
  | p :: more =>
      match p with
      | [] => resolveLoop more resolvedPath
      | _ =>
          let resolvedPath' := p ++ "/"%char :: resolvedPath in
          if isAbsoluteC p then (resolvedPath', true)
          else resolveLoop more resolvedPath'
      end
  end.

Definition resolveC (cwd : chars) (args : list chars) : chars :=
  let '(resolvedPath, resolvedAbsolute) := resolveLoop (rev args ++ [cwd]) [] in
  let q := normalizeString resolvedPath (negb resolvedAbsolute) in
  if resolvedAbsolute then "/"%char :: q
  else match q with [] => [ "."%char ] | _ => q end.

Definition resolve (cwd : string) (args : list string) : string :=
  to_string (resolveC (of_string cwd) (map of_string args)).

(** [path.relative(from, to)]: both ends are resolved, their common
    leading portions dropped, and each portion left of [from] becomes a
    [..] before what is left of [to]. *)
Fixpoint dropCommon (a b : list chars) : list chars * list chars :=
  match a, b with
  | x :: a', y :: b' => if eqb x y then dropCommon a' b' else (a, b)
  | _, _ => (a, b)
  end.

Definition portions (p : chars) : list chars :=
  List.filter (fun s => negb (eqb s [])) (split p).

Definition relativeC (cwd from to : chars) : chars :=
  if eqb from to then []
  else
    let from' := resolveC cwd [from] in
    let to' := resolveC cwd [to] in
    if eqb from' to' then []
    else
      let '(fs, ts) := dropCommon (portions from') (portions to') in
      joinWith [ "/"%char ] (map (fun _ => dotdot) fs ++ ts).

Definition relative (cwd from to : string) : string :=
  to_string (relativeC (of_string cwd) (of_string from) (of_string to)).

End Path.

(** ** The pattern of [handleEvent]

    [handleEvent] strips the file name off the relative path with
    [s.replace(new RegExp(`[\\\\/]${filename}$`), '')].  The file name is
    pasted into the pattern as it is, so what the pattern means depends on
    the characters of the name.  The engine below takes the operation as a
    parameter ([None]: the [RegExp] constructor throws); [Regex.replaceTail]
    is its instance for names in which every character stands for itself or
    is a dot, the names used in the examples.  Other names are outside what
    the instance models: it answers [None] for them. *)

Module Regex.
Import Chars.

(** Characters that are syntax in a JavaScript pattern, the dot apart. *)
Definition isMeta (c : ascii) : bool :=
  existsb (Ascii.eqb c)
    (of_string "\^$*+?()[]{}|").

Definition plainName (name : chars) : bool := forallb (fun c => negb (isMeta c)) name.

(** One pattern character against one subject character: a dot matches
    anything but a line terminator. *)
Definition matchChar (pc c : ascii) : bool :=
  if isDot pc
  then negb (Ascii.eqb c "010"%char || Ascii.eqb c "013"%char)
  else Ascii.eqb pc c.

Fixpoint matchChars (pat subject : chars) : bool :=
  match pat, subject with
  | [], [] => true
  | pc :: pat', c :: subject' => matchChar pc c && matchChars pat' subject'
  | _, _ => false
  end.

(** The pattern has no repetition and ends in [$], so it can only match
    the last [1 + length name] characters of the subject. *)
Definition replaceTailC (name subject : chars) : chars :=
  let k := (length subject - S (length name))%nat in
  match drop k subject with
  | c :: tail =>
      if (S (length name) <=? length subject)%nat
         && (isSlash c || Ascii.eqb c "\"%char)
         && matchChars name tail
      then take k subject
      else subject
  | [] => subject
  end.

Definition replaceTail (filename subject : string) : option string :=
  if plainName (of_string filename)
  then Some (to_string (replaceTailC (of_string filename) (of_string subject)))
  else None.

End Regex.

(** ** The engine state *)

Inductive EventKind := Add | Change | Unlink.

#[global] Instance EventKind_eq_dec : EqDecision EventKind.
Proof. solve_decision. Defined.

#[global] Instance EventKind_countable : Countable EventKind.
Proof.
  refine (inj_countable' (fun k => match k with Add => 0 | Change => 1 | Unlink => 2 end)
            (fun n => match n with 0 => Add | 1 => Change | _ => Unlink end) _).
  by intros [].
Defined.

(** What a call can throw. *)
Inductive Error :=
| ENOENT (path : string)          (* [fs.readdirSync] on a missing path *)
| ENOTDIR (path : string)         (* [fs.readdirSync] on a regular file *)
| SyntaxError (pattern : string)  (* [new RegExp] on an ill-formed pattern *)
| UserError (msg : string).       (* thrown by a user callback *)

(** A user callback: it is called with [(directory, filename,
    relativePath, eventType)] and returns, or throws.  Callbacks that call
    back into the engine are outside the model. *)
Record Callback := mkCallback {
  cb_id : nat;
  cb_run : string -> string -> string -> EventKind -> option Error
}.

(** The fields of [class FileWatcher].  [watchers] holds the identity of
    the [FSWatcher] object registered for a directory;
    [monitoredDirectories] is kept in insertion order, which is the order
    [startWatching] iterates it in. *)
Record FileWatcher := mkFileWatcher {
  processId : nat;
  baseDir : string;
  watchers : gmap string nat;
  dirHandlers : gmap string (gmap EventKind Callback);
  ignoredDirectories : gset string;
  allowedExtensions : gset string;
  monitoredDirectories : list string;
  initialFiles : gset string
}.

(** chokidar: the subscriptions that are open, each with the directory it
    was opened on, and the identity of the next [FSWatcher] object. *)
Record Chokidar := mkChokidar {
  nextWatcher : nat;
  live : gmap nat string
}.

Record World := mkWorld {
  this : FileWatcher;
  chokidar : Chokidar
}.

(** What a call lets the outside observe: an event emitted to the
    listeners of the engine (the listeners themselves are not part of the
    model), a call of a user handler, a warning on the console. *)
Inductive Effect :=
| Emit (eventType : EventKind) (directory filename relativePath : string)
| Call (handler : Callback) (directory filename relativePath : string)
       (eventType : EventKind)
| Warn (msg : string).

(** [new FileWatcher(processId?)] in a process [pid] with working directory
    [cwd]; [processId || process.pid] falls back on [0] as on [undefined]. *)
Definition newFileWatcher (pid : nat) (cwd : string) (processId : option nat)
  : FileWatcher :=
  {| processId := match processId with
                  | Some n => if (n =? 0)%nat then pid else n
                  | None => pid
                  end;
     baseDir := cwd;
     watchers := ∅;
     dirHandlers := ∅;
     ignoredDirectories := ∅;
     allowedExtensions := ∅;
     monitoredDirectories := [];
     initialFiles := ∅ |}.

Definition newWorld (pid : nat) (cwd : string) (processId : option nat) : World :=
  {| this := newFileWatcher pid cwd processId;
     chokidar := {| nextWatcher := 0; live := ∅ |} |}.

(** Field updates. *)
Definition set_watchers (v : gmap string nat) (fw : FileWatcher) : FileWatcher :=
  mkFileWatcher (processId fw) (baseDir fw) v (dirHandlers fw)
    (ignoredDirectories fw) (allowedExtensions fw) (monitoredDirectories fw)
    (initialFiles fw).
Definition set_dirHandlers (v : gmap string (gmap EventKind Callback))
  (fw : FileWatcher) : FileWatcher :=
  mkFileWatcher (processId fw) (baseDir fw) (watchers fw) v
    (ignoredDirectories fw) (allowedExtensions fw) (monitoredDirectories fw)
    (initialFiles fw).
Definition set_ignoredDirectories (v : gset string) (fw : FileWatcher) : FileWatcher :=
  mkFileWatcher (processId fw) (baseDir fw) (watchers fw) (dirHandlers fw)
    v (allowedExtensions fw) (monitoredDirectories fw) (initialFiles fw).
Definition set_allowedExtensions (v : gset string) (fw : FileWatcher) : FileWatcher :=
  mkFileWatcher (processId fw) (baseDir fw) (watchers fw) (dirHandlers fw)
    (ignoredDirectories fw) v (monitoredDirectories fw) (initialFiles fw).
Definition set_monitoredDirectories (v : list string) (fw : FileWatcher) : FileWatcher :=
  mkFileWatcher (processId fw) (baseDir fw) (watchers fw) (dirHandlers fw)
    (ignoredDirectories fw) (allowedExtensions fw) v (initialFiles fw).
Definition set_initialFiles (v : gset string) (fw : FileWatcher) : FileWatcher :=
  mkFileWatcher (processId fw) (baseDir fw) (watchers fw) (dirHandlers fw)
    (ignoredDirectories fw) (allowedExtensions fw) (monitoredDirectories fw) v.

(** ** A monad for the methods: state, observable effects, exceptions *)

Inductive Completion (A : Type) :=
| Normal (a : A)
| Throw (e : Error).
Arguments Normal {A} a.
Arguments Throw {A} e.

Record Result (A : Type) := mkResult {
  world : World;
  trace : list Effect;
  completion : Completion A
}.
Arguments mkResult {A}.
Arguments world {A}.
Arguments trace {A}.
Arguments completion {A}.

Definition M (A : Type) : Type := World -> Result A.

Definition ret {A} (a : A) : M A := fun w => mkResult w [] (Normal a).
Definition throw {A} (e : Error) : M A := fun w => mkResult w [] (Throw e).

Definition bind {A B} (m : M A) (k : A -> M B) : M B :=
  fun w =>
    let r := m w in
    match completion r with
    | Normal a =>
        let r' := k a (world r) in
        mkResult (world r') (trace r ++ trace r') (completion r')
    | Throw e => mkResult (world r) (trace r) (Throw e)
    end.

Definition getThis : M FileWatcher := fun w => mkResult w [] (Normal (this w)).
Definition modifyThis (f : FileWatcher -> FileWatcher) : M unit :=
  fun w => mkResult (mkWorld (f (this w)) (chokidar w)) [] (Normal tt).
Definition tell (e : Effect) : M unit := fun w => mkResult w [e] (Normal tt).

Declare Scope fw_scope.
Delimit Scope fw_scope with fw.
Notation "x <- m ;; k" := (bind m (fun x => k))
  (at level 100, m at next level, right associativity) : fw_scope.
Notation "m ;;; k" := (bind m (fun _ => k))
  (at level 100, right associativity) : fw_scope.
Local Open Scope fw_scope.

(** [for (const x of xs) body(x)] *)
Fixpoint forOf {A} (xs : list A) (body : A -> M unit) : M unit :=
  match xs with
  | [] => ret tt
  | x :: rest => body x ;;; forOf rest body
  end.

(** ** [node:fs]: the file system as the engine reads it

    A path the engine asks about is absent, a regular file, or a directory
    with its entries in [readdirSync] order. *)

Inductive Node :=
| File
| Dir (entries : Entries)
with Entries :=
| NoEntry
| Entry (name : string) (node : Node) (rest : Entries).

Scheme Node_mut := Induction for Node Sort Prop
  with Entries_mut := Induction for Entries Sort Prop.

Definition FS := gmap string Node.

Definition existsSync (fs : FS) (p : string) : bool :=
  match fs !! p with Some _ => true | None => false end.

(** JavaScript truthiness of a string: every string but the empty one. *)
Definition truthy (s : string) : bool := negb (String.eqb s "").

(** ** The methods of [FileWatcher] *)

(** The [ignored] callback that [watchDirectory] hands to chokidar (lines
    46-53).  chokidar calls it with the candidate path; the callback takes
    no parameter and tests the concatenation [baseDir + '/' + ignoredDir]
    for truthiness. *)
Definition ignored (fw : FileWatcher) (candidate : string) : bool :=
  existsb (fun ignoredDir => truthy (baseDir fw ++ "/" ++ ignoredDir))
          (elements (ignoredDirectories fw)).

(** [chokidar.watch(directory, ...)]: a new [FSWatcher], open on
    [directory]. *)
Definition chokidar_watch (directory : string) : M nat :=
  fun w =>
    let id := nextWatcher (chokidar w) in
    mkResult
      (mkWorld (this w)
         {| nextWatcher := S id; live := <[id := directory]> (live (chokidar w)) |})
      [] (Normal id).

(** [watcher.close()] *)
Definition watcher_close (id : nat) : M unit :=
  fun w =>
    mkResult
      (mkWorld (this w)
         {| nextWatcher := nextWatcher (chokidar w);
            live := delete id (live (chokidar w)) |})
      [] (Normal tt).

(** [watchDirectory(directory)], lines 41-61. *)
Definition watchDirectory (directory : string) : M unit :=
  fw <- getThis ;;
  match watchers fw !! directory with
  | Some _ => ret tt
  | None =>
      watcher <- chokidar_watch directory ;;
      modifyThis (fun fw => set_watchers (<[directory := watcher]> (watchers fw)) fw)
  end.

(** [findHandler(directory, eventType)], lines 70-82.  The [while] loop
    runs on fuel; [None] is fuel exhausted, [Some r] is the value
    returned ([Some None] for [undefined]). *)
Fixpoint findHandlerLoop (fuel : nat) (handlersOf : gmap string (gmap EventKind Callback))
  (currentDir : string) (eventType : EventKind) : option (option Callback) :=
  match fuel with
  | O => None
  | S fuel' =>
      if String.eqb currentDir (Path.dirname currentDir) then Some None
      else
        match handlersOf !! currentDir with
        | Some handlers =>
            match handlers !! eventType with
            | Some callback => Some (Some callback)
            | None => findHandlerLoop fuel' handlersOf (Path.dirname currentDir) eventType
            end
        | None => findHandlerLoop fuel' handlersOf (Path.dirname currentDir) eventType
        end
  end.

(** Every round but the last shortens [currentDir], so its length plus two
    rounds suffice ([findHandlerLoop_enough] below). *)
Definition findHandlerFuel (directory : string) : nat := String.length directory + 2.

Definition findHandler (fw : FileWatcher) (directory : string) (eventType : EventKind)
  : option Callback :=
  match findHandlerLoop (findHandlerFuel directory) (dirHandlers fw) directory eventType with
  | Some r => r
  | None => None
  end.

(** Calling a user callback. *)
Definition invoke (handler : Callback) (directory filename relativePath : string)
  (eventType : EventKind) : M unit :=
  tell (Call handler directory filename relativePath eventType) ;;;
  match cb_run handler directory filename relativePath eventType with
  | Some e => throw e
  | None => ret tt
  end.

(** [handleEvent(eventType, directory, filePath)], lines 91-108, with the
    two operations of the platform it relies on as parameters:
    [toLowerCase] is [String.prototype.toLowerCase], and
    [replaceTail filename subject] is
    [subject.replace(new RegExp(`[\\\\/]${filename}$`), '')], [None] when
    the constructor throws. *)
Definition handleEventWith (toLowerCase : string -> string)
  (replaceTail : string -> string -> option string)
  (eventType : EventKind) (directory filePath : string) : M unit :=
  fw <- getThis ;;
  let filename := Path.basename filePath in
  let extension := toLowerCase (Path.extname filename) in
  match replaceTail filename (Path.relative (baseDir fw) (baseDir fw) filePath) with
  | None => throw (SyntaxError ("[\\/]" ++ filename ++ "$"))
  | Some relativePath =>
      if (0 <? size (allowedExtensions fw))%nat
         && negb (bool_decide (extension ∈ allowedExtensions fw))
      then ret tt
      else if bool_decide (filePath ∈ initialFiles fw)
              && bool_decide (eventType = Add)
      then ret tt
      else
        tell (Emit eventType directory filename (baseDir fw ++ "/" ++ relativePath)) ;;;
        match findHandler fw directory eventType with
        | Some handler =>
            invoke handler directory filename (baseDir fw ++ "/" ++ relativePath) eventType
        | None => ret tt
        end
  end.

Section Engine.

(** [subject.replace(new RegExp(`[\\\\/]${filename}$`), '')] as
    [replaceTail filename subject]; [None] when the constructor throws. *)
Variable replaceTail : string -> string -> option string.

(** [handleEvent] on ASCII text. *)
Definition handleEvent (eventType : EventKind) (directory filePath : string) : M unit :=
  handleEventWith Chars.toLowerCase replaceTail eventType directory filePath.

(** chokidar reporting on a path of subscription [id], in a world whose
    ignore set is as it was when chokidar met the path.  chokidar asks the
    [ignored] callback when it meets a path (in the scan that follows
    [watch], or when the path appears) and takes the path into its watch
    list unless the callback accepts it.  So a closed subscription reports
    nothing, a path the callback accepts is not watched and nothing is
    reported for it, and anything else reaches the listener installed by
    [watchDirectory] (lines 56-58). *)
Definition notify (id : nat) (eventType : EventKind) (filePath : string) : M unit :=
  fun w =>
    match live (chokidar w) !! id with
    | None => ret tt w
    | Some directory =>
        if ignored (this w) filePath then ret tt w
        else handleEvent eventType directory filePath w
    end.

(** chokidar reporting on a path that is in the watch list of subscription
    [id] already: the [ignored] callback is not asked again, whatever the
    ignore set has become.  A closed subscription reports nothing, an open
    one reaches the listener installed by [watchDirectory] (lines 56-58). *)
Definition deliver (id : nat) (eventType : EventKind) (filePath : string) : M unit :=
  fun w =>
    match live (chokidar w) !! id with
    | None => ret tt w
    | Some directory => handleEvent eventType directory filePath w
    end.

End Engine.

(** [captureInitialFiles(directory)], lines 115-125, below a directory whose
    entries [readdirSync] has returned: the recursion follows the tree. *)
Fixpoint captureEntries (directory : string) (entries : Entries)
  (files : gset string) {struct entries} : gset string :=
  match entries with
  | NoEntry => files
  | Entry file child rest =>
      let fullPath := Path.join directory file in
      let files' :=
        match child with
        | Dir below => captureEntries fullPath below files
        | File => {[ fullPath ]} ∪ files
        end in
      captureEntries directory rest files'
  end.

Definition captureInitialFiles (fs : FS) (directory : string) : M unit :=
  match fs !! directory with
  | None => throw (ENOENT directory)
  | Some File => throw (ENOTDIR directory)
  | Some (Dir entries) =>
      modifyThis (fun fw =>
        set_initialFiles (captureEntries directory entries (initialFiles fw)) fw)
  end.

(** [startWatching()], lines 130-141. *)
Definition startWatching (fs : FS) : M unit :=
  fw <- getThis ;;
  let directories :=
    if (0 <? length (monitoredDirectories fw))%nat
    then monitoredDirectories fw else [baseDir fw] in
  forOf directories (captureInitialFiles fs) ;;;
  forOf directories watchDirectory.

(** [stopWatching()], lines 146-152. *)
Definition stopWatching : M unit :=
  fw <- getThis ;;
  forOf (map snd (map_to_list (watchers fw))) watcher_close ;;;
  modifyThis (set_watchers ∅).

(** [setHandler(directory, eventType, callback)], lines 160-170. *)
Definition setHandler (directory : string) (eventType : EventKind)
  (callback : Callback) : M unit :=
  fw <- getThis ;;
  (match dirHandlers fw !! directory with
   | Some _ => ret tt
   | None => modifyThis (fun fw => set_dirHandlers (<[directory := ∅]> (dirHandlers fw)) fw)
   end) ;;;
  fw <- getThis ;;
  (match dirHandlers fw !! directory with
   | Some handlers =>
       modifyThis (fun fw =>
         set_dirHandlers (<[directory := <[eventType := callback]> handlers]> (dirHandlers fw)) fw)
   | None => ret tt
   end) ;;;
  watchDirectory directory.

(** [ignoreDirectory(...directory)], lines 177-186. *)
Definition ignoreDirectory (fs : FS) (directory : list string) : M unit :=
  forOf directory (fun dir =>
    if negb (existsSync fs dir)
    then tell (Warn ("Directory " ++ dir ++ " doesr not exist, ignoring it will not work."))
    else modifyThis (fun fw =>
           set_ignoredDirectories ({[ dir ]} ∪ ignoredDirectories fw) fw)).

(** [unignoreDirectory(...directory)], lines 193-202. *)
Definition unignoreDirectory (directory : list string) : M unit :=
  forOf directory (fun dir =>
    fw <- getThis ;;
    if bool_decide (dir ∈ ignoredDirectories fw)
    then modifyThis (fun fw =>
           set_ignoredDirectories (ignoredDirectories fw ∖ {[ dir ]}) fw)
    else tell (Warn ("Directory " ++ dir ++ " is not ignored."))).

(** [setAllowedExtensions(...extensions)], lines 209-212, with
    [String.prototype.toLowerCase] as a parameter. *)
Definition setAllowedExtensionsWith (toLowerCase : string -> string)
  (extensions : list string) : M unit :=
  modifyThis (set_allowedExtensions (list_to_set (map toLowerCase extensions))).

(** [setAllowedExtensions] on ASCII text. *)
Definition setAllowedExtensions (extensions : list string) : M unit :=
  setAllowedExtensionsWith Chars.toLowerCase extensions.

(** [new Set(xs)] in insertion order. *)
Fixpoint insertionOrder (seen : list string) (xs : list string) : list string :=
  match xs with
  | [] => []
  | x :: rest =>
      if bool_decide (x ∈ seen) then insertionOrder seen rest
      else x :: insertionOrder (x :: seen) rest
  end.

(** [setMonitoredDirectories(...directories)], lines 219-222. *)
Definition setMonitoredDirectories (directories : list string) : M unit :=
  modifyThis (fun fw =>
    set_monitoredDirectories
      (insertionOrder [] (map (fun dir => Path.resolve (baseDir fw) [baseDir fw; dir]) directories))
      fw).

(** ** Vocabulary of the specification *)

(** The directories [findHandler] examines, nearest first: [directory],
    its parent, and so on, up to but not including the first one that is
    its own parent. *)
Fixpoint ancestorWalk (fuel : nat) (currentDir : string) : list string :=
  match fuel with
  | O => []
  | S fuel' =>
      if String.eqb currentDir (Path.dirname currentDir) then []
      else currentDir :: ancestorWalk fuel' (Path.dirname currentDir)
  end.

Definition ancestors (directory : string) : list string :=
  ancestorWalk (findHandlerFuel directory) directory.

(** The callback registered for [(directory, eventType)], if any. *)
Definition handlerAt (handlersOf : gmap string (gmap EventKind Callback))
  (eventType : EventKind) (directory : string) : option Callback :=
  match handlersOf !! directory with
  | Some handlers => handlers !! eventType
  | None => None
  end.

(** The callback of the first directory of a list that has one. *)
Fixpoint firstHandler (handlersOf : gmap string (gmap EventKind Callback))
  (eventType : EventKind) (dirs : list string) : option Callback :=
  match dirs with
  | [] => None
  | d :: rest =>
      match handlerAt handlersOf eventType d with
      | Some callback => Some callback
      | None => firstHandler handlersOf eventType rest
      end
  end.

(** [candidate] is [dir] or a path below it. *)
Definition liesUnder (dir candidate : string) : bool :=
  String.eqb candidate dir || String.prefix (dir ++ "/") candidate.

(** The ignore predicate as the specification words it: the candidate lies
    under some directory of the ignore set. *)
Definition liesUnderIgnored (fw : FileWatcher) (candidate : string) : bool :=
  existsb (fun ignoredDir => liesUnder ignoredDir candidate)
          (elements (ignoredDirectories fw)).

(** The extension [handleEvent] tests. *)
Definition extensionOf (filePath : string) : string :=
  Chars.toLowerCase (Path.extname (Path.basename filePath)).

(** [path.relative(this.baseDir, filePath)], the working directory of the
    process being the base directory, as it is when the engine is made. *)
Definition relativeOf (fw : FileWatcher) (filePath : string) : string :=
  Path.relative (baseDir fw) (baseDir fw) filePath.

(** A regular file of a directory tree, under the path
    [captureInitialFiles] builds for it. *)
Inductive FileAt : string -> Entries -> string -> Prop :=
| FileAt_here directory file rest :
    FileAt directory (Entry file File rest) (Path.join directory file)
| FileAt_below directory file below rest p :
    FileAt (Path.join directory file) below p ->
    FileAt directory (Entry file (Dir below) rest) p
| FileAt_later directory file child rest p :
    FileAt directory rest p ->
    FileAt directory (Entry file child rest) p.

(** The directories [startWatching] works on. *)
Definition effectiveDirectories (fw : FileWatcher) : list string :=
  if (0 <? length (monitoredDirectories fw))%nat
  then monitoredDirectories fw else [baseDir fw].

(** The public operations, and the notifications that arrive in between:
    for a path chokidar meets ([OpNotify]) and for a path it watches
    already ([OpDeliver]). *)
Inductive Op :=
| OpStartWatching (fs : FS)
| OpStopWatching
| OpSetHandler (directory : string) (eventType : EventKind) (callback : Callback)
| OpIgnoreDirectory (fs : FS) (directory : list string)
| OpUnignoreDirectory (directory : list string)
| OpSetAllowedExtensions (extensions : list string)
| OpSetMonitoredDirectories (directories : list string)
| OpNotify (id : nat) (eventType : EventKind) (filePath : string)
| OpDeliver (id : nat) (eventType : EventKind) (filePath : string).

Definition runOp (replaceTail : string -> string -> option string) (op : Op) : M unit :=
  match op with
  | OpStartWatching fs => startWatching fs
  | OpStopWatching => stopWatching
  | OpSetHandler d k cb => setHandler d k cb
  | OpIgnoreDirectory fs ds => ignoreDirectory fs ds
  | OpUnignoreDirectory ds => unignoreDirectory ds
  | OpSetAllowedExtensions es => setAllowedExtensions es
  | OpSetMonitoredDirectories ds => setMonitoredDirectories ds
  | OpNotify id k p => notify replaceTail id k p
  | OpDeliver id k p => deliver replaceTail id k p
  end.

(** A caller's session: one operation after the other, on the state the
    previous one left, whether it returned or threw. *)
Fixpoint runOps (replaceTail : string -> string -> option string) (ops : list Op)
  (w : World) : World :=
  match ops with
  | [] => w
  | op :: rest => runOps replaceTail rest (world (runOp replaceTail op w))
  end.

(** ** Vocabulary of the proofs *)

(** A property of the world that every step of a computation keeps is
    kept by the computation, whether it returns or throws. *)
Definition keeps (R : World -> World -> Prop) {A} (m : M A) : Prop :=
  forall w, R w (world (m w)).

(** The relation [same]: the world is untouched. *)
Definition same : World -> World -> Prop := fun a b => b = a.

(** chokidar after [close()] on each watcher of a list. *)
Definition closeAll (ids : list nat) (c : Chokidar) : Chokidar :=
  {| nextWatcher := nextWatcher c;
     live := foldl (fun l id => delete id l) (live c) ids |}.

(** The two warnings of [ignoreDirectory] and [unignoreDirectory]. *)
Definition warnMissing (dir : string) : Effect :=
  Warn ("Directory " ++ dir ++ " doesr not exist, ignoring it will not work.").

Definition warnNotIgnored (dir : string) : Effect :=
  Warn ("Directory " ++ dir ++ " is not ignored.").

(** A directory is done with when it is its own parent, or when the fuel
    exceeds its length by two. *)
Definition enoughFuel (fuel : nat) (currentDir : string) : Prop :=
  (String.eqb currentDir (Path.dirname currentDir) = true /\ 1 <= fuel)
  \/ String.length currentDir + 2 <= fuel.

(** The extension filter lets the file through. *)
Definition extensionPasses (fw : FileWatcher) (filePath : string) : Prop :=
  allowedExtensions fw = ∅ \/ extensionOf filePath ∈ allowedExtensions fw.

(** The table after [setHandler]: the entry of [directory], created empty
    if it was missing, with [eventType] bound to [callback]. *)
Definition withHandler (directory : string) (eventType : EventKind) (callback : Callback)
  (handlersOf : gmap string (gmap EventKind Callback))
  : gmap string (gmap EventKind Callback) :=
  <[directory := <[eventType := callback]> (default ∅ (handlersOf !! directory))]> handlersOf.

(** The relation [grows]: the initial files of the first world are initial
    files of the second. *)
Definition grows : World -> World -> Prop :=
  fun a b => initialFiles (this a) ⊆ initialFiles (this b).

(** The relation [sameField f]: field [f] of the engine is untouched. *)
Definition sameField {X} (f : FileWatcher -> X) : World -> World -> Prop :=
  fun a b => f (this b) = f (this a).

(** The relation [carries I]: if [I] holds of the first world, it holds
    of the second. *)
Definition carries (I : World -> Prop) : World -> World -> Prop :=
  fun a b => I a -> I b.

(** The registry and chokidar agree: the watcher registered for a
    directory is open on that directory, every open watcher is the one
    registered for its directory, and the identities in use are below the
    next one. *)
Definition wellFormed (w : World) : Prop :=
  (forall d id, watchers (this w) !! d = Some id <-> live (chokidar w) !! id = Some d)
  /\ (forall id d, live (chokidar w) !! id = Some d -> id < nextWatcher (chokidar w)).

(** ** Scenarios *)

(** Two handlers that return, one on [/a] and one on [/a/b]. *)
Definition handlerA : Callback := mkCallback 1 (fun _ _ _ _ => None).
Definition handlerB : Callback := mkCallback 2 (fun _ _ _ _ => None).

Definition twoHandlers : World :=
  world ((setHandler "/a" Change handlerA ;;; setHandler "/a/b" Change handlerB)
           (newWorld 1 "/base" None)).

(** A base directory with one file, and an engine started on it. *)
Definition snapshotFS : FS :=
  {[ "/base" := Dir (Entry "old.txt" File NoEntry) ]}.

Definition watchingBase : World :=
  world (startWatching snapshotFS (newWorld 1 "/base" None)).

(** An engine that allows [.js] only (given in upper case). *)
Definition onlyJs : World :=
  world (setAllowedExtensions [".JS"] (newWorld 1 "/base" None)).

(** A handler that throws, registered for "change" on [/base]. *)
Definition thrower : Callback :=
  mkCallback 3 (fun _ _ _ _ => Some (UserError "boom")).

Definition withThrower : World :=
  world (setHandler "/base" Change thrower (newWorld 1 "/base" None)).

(** The base directory after [new.txt] was created. *)
Definition laterFS : FS :=
  {[ "/base" := Dir (Entry "old.txt" File (Entry "new.txt" File NoEntry)) ]}.

(** ** Vocabulary of the further properties *)

(** The relation [sameChokidar]: chokidar is untouched. *)
Definition sameChokidar : World -> World -> Prop :=
  fun a b => chokidar b = chokidar a.

(** The callback of the last [setHandler(directory, eventType, ...)] of a
    session, if the session has one. *)
Fixpoint lastRegistration (ops : list Op) (directory : string) (eventType : EventKind)
  : option Callback :=
  match ops with
  | [] => None
  | op :: rest =>
      match lastRegistration rest directory eventType with
      | Some callback => Some callback
      | None =>
          match op with
          | OpSetHandler d k callback =>
              if bool_decide (d = directory /\ k = eventType) then Some callback else None
          | _ => None
          end
      end
  end.

(** The world with another ignore set. *)
Definition withIgnored (v : gset string) (w : World) : World :=
  mkWorld (set_ignoredDirectories v (this w)) (chokidar w).

(** What [captureInitialFiles] throws on a path that is not a directory. *)
Definition readdirError (fs : FS) (directory : string) : Error :=
  match fs !! directory with
  | Some _ => ENOTDIR directory
  | None => ENOENT directory
  end.

(** * Proofs *)

(** ** The path and pattern models on examples *)

Section PathExamples.
Import Path.
Example basename_ex : basename "/a/b/foo.JS" = "foo.JS". Proof. reflexivity. Qed.
Example basename_ex2 : basename "/a/b/" = "b". Proof. reflexivity. Qed.
Example extname_ex : extname "foo.tar.GZ" = ".GZ". Proof. reflexivity. Qed.
Example extname_ex2 : extname ".bashrc" = "". Proof. reflexivity. Qed.
Example extname_ex3 : extname ".." = "". Proof. reflexivity. Qed.
Example extname_ex4 : extname "a." = ".". Proof. reflexivity. Qed.
Example extname_ex5 : extname "..." = ".". Proof. reflexivity. Qed.
Example extname_ex6 : extname "..a" = ".a". Proof. reflexivity. Qed.
Example extname_ex7 : extname "Makefile" = "". Proof. reflexivity. Qed.
Example dirname_ex : dirname "/a/b/c" = "/a/b". Proof. reflexivity. Qed.
Example dirname_ex2 : dirname "/a" = "/". Proof. reflexivity. Qed.
Example dirname_ex3 : dirname "/" = "/". Proof. reflexivity. Qed.
Example dirname_ex4 : dirname "./test" = ".". Proof. reflexivity. Qed.
Example dirname_ex5 : dirname "." = ".". Proof. reflexivity. Qed.
Example dirname_ex6 : dirname "" = ".". Proof. reflexivity. Qed.
Example dirname_ex7 : dirname "//a" = "//". Proof. reflexivity. Qed.
Example dirname_ex8 : dirname "//" = "/". Proof. reflexivity. Qed.
Example dirname_ex9 : dirname "/a//b/" = "/a/". Proof. reflexivity. Qed.
Example dirname_ex10 : dirname "a/b" = "a". Proof. reflexivity. Qed.
Example join_ex : join "./test" "a.js" = "test/a.js". Proof. reflexivity. Qed.
Example join_ex2 : join "/root" "a.txt" = "/root/a.txt". Proof. reflexivity. Qed.
Example join_ex3 : join "/a/b" "../c" = "/a/c". Proof. reflexivity. Qed.
Example resolve_ex : resolve "/home/u" ["./test"] = "/home/u/test". Proof. reflexivity. Qed.
Example resolve_ex2 : resolve "/home/u" ["/home/u"; "/etc"] = "/etc". Proof. reflexivity. Qed.
Example resolve_ex3 : resolve "/home/u" ["/home/u"; "../x/"] = "/home/x". Proof. reflexivity. Qed.
Example relative_ex : relative "/b" "/b" "/b/foo.js" = "foo.js". Proof. reflexivity. Qed.
Example relative_ex2 : relative "/b" "/b" "/b/x/foo.js" = "x/foo.js". Proof. reflexivity. Qed.
Example relative_ex3 : relative "/b" "/b" "x/foo.js" = "x/foo.js". Proof. reflexivity. Qed.
Example relative_ex4 : relative "/b/c" "/b/c" "/b/d/foo.js" = "../d/foo.js". Proof. reflexivity. Qed.
Example relative_ex5 : relative "/" "/" "/foo" = "foo". Proof. reflexivity. Qed.
Example relative_ex6 : relative "/" "/foo" "/foobar" = "../foobar". Proof. reflexivity. Qed.
End PathExamples.

Section RegexExamples.
Import Regex.
Example replaceTail_ex : replaceTail "foo.js" "x/y/foo.js" = Some "x/y".
Proof. reflexivity. Qed.
Example replaceTail_ex2 : replaceTail "foo.js" "foo.js" = Some "foo.js".
Proof. reflexivity. Qed.
Example replaceTail_ex3 : replaceTail "foo.js" "x\foo.js" = Some "x".
Proof. reflexivity. Qed.
Example replaceTail_ex4 : replaceTail "o.js" "x/foo.js" = Some "x/foo.js".
Proof. reflexivity. Qed.
Example replaceTail_ex5 : replaceTail "a(b.js" "x/a(b.js" = None.
Proof. reflexivity. Qed.
End RegexExamples.

(** ** The monad *)

Lemma bind_normal {A B} (m : M A) (k : A -> M B) w a :
  completion (m w) = Normal a ->
  bind m k w =
    mkResult (world (k a (world (m w)))) (trace (m w) ++ trace (k a (world (m w))))
             (completion (k a (world (m w)))).
Proof. intros H. unfold bind. by rewrite H. Qed.

Lemma bind_throw {A B} (m : M A) (k : A -> M B) w e :
  completion (m w) = Throw e ->
  bind m k w = mkResult (world (m w)) (trace (m w)) (Throw e).
Proof. intros H. unfold bind. by rewrite H. Qed.

Lemma result_eta {A} (r : Result A) : mkResult (world r) (trace r) (completion r) = r.
Proof. by destruct r. Qed.

Lemma result_pure {A} (r : Result A) a :
  completion r = Normal a -> trace r = [] -> r = mkResult (world r) [] (Normal a).
Proof. destruct r; simpl. by intros -> ->. Qed.

(** A first step that returns without an observable effect. *)
Lemma bind_pure {A B} (m : M A) (k : A -> M B) w a w' :
  m w = mkResult w' [] (Normal a) -> bind m k w = k a w'.
Proof. intros H. unfold bind. rewrite H. simpl. apply result_eta. Qed.

Lemma world_eta (w : World) : mkWorld (this w) (chokidar w) = w.
Proof. by destruct w. Qed.

Lemma chokidar_eta (c : Chokidar) : mkChokidar (nextWatcher c) (live c) = c.
Proof. by destruct c. Qed.

Section Keeps.
Context (R : World -> World -> Prop).
Hypothesis R_refl : forall w, R w w.
Hypothesis R_trans : forall a b c, R a b -> R b c -> R a c.

Lemma keeps_ret {A} (a : A) : keeps R (ret a).
Proof. intros w. apply R_refl. Qed.

Lemma keeps_throw {A} e : keeps R (@throw A e).
Proof. intros w. apply R_refl. Qed.

Lemma keeps_tell e : keeps R (tell e).
Proof. intros w. apply R_refl. Qed.

Lemma keeps_getThis : keeps R getThis.
Proof. intros w. apply R_refl. Qed.

Lemma keeps_bind {A B} (m : M A) (k : A -> M B) :
  keeps R m -> (forall a, keeps R (k a)) -> keeps R (bind m k).
Proof.
  intros Hm Hk w. unfold bind.
  destruct (completion (m w)) as [a|e]; simpl; [|apply Hm].
  eapply R_trans; [apply Hm | apply Hk].
Qed.

Lemma keeps_forOf {A} (xs : list A) (body : A -> M unit) :
  (forall x, keeps R (body x)) -> keeps R (forOf xs body).
Proof.
  intros Hb. induction xs as [|x xs IH]; simpl.
  - apply keeps_ret.
  - apply keeps_bind; [apply Hb | intros _; apply IH].
Qed.

Lemma keeps_invoke h d f r k : keeps R (invoke h d f r k).
Proof.
  unfold invoke. apply keeps_bind; [apply keeps_tell|].
  intros _. destruct (cb_run h d f r k); [apply keeps_throw | apply keeps_ret].
Qed.
End Keeps.

(** ** [forOf] on bodies that return *)

Lemma forOf_nil {A} (body : A -> M unit) w : forOf [] body w = mkResult w [] (Normal tt).
Proof. reflexivity. Qed.

Lemma forOf_one {A} (x : A) (body : A -> M unit) w :
  forOf [x] body w = body x w.
Proof.
  simpl. unfold bind. destruct (body x w) as [w' t [[]|e]]; simpl; [|done].
  by rewrite app_nil_r.
Qed.

(** ** [handleEvent] leaves the world as it is *)

Lemma same_refl w : same w w.
Proof. done. Qed.

Lemma same_trans a b c : same a b -> same b c -> same a c.
Proof. unfold same. congruence. Qed.

Lemma handleEventWith_keeps lower rt k d p :
  keeps same (handleEventWith lower rt k d p).
Proof.
  unfold handleEventWith.
  apply (keeps_bind same same_trans); [apply (keeps_getThis same same_refl)|].
  intros fw. destruct (rt _ _); [|apply (keeps_throw same same_refl)].
  destruct (_ && _); [apply (keeps_ret same same_refl)|].
  destruct (_ && _); [apply (keeps_ret same same_refl)|].
  apply (keeps_bind same same_trans); [apply (keeps_tell same same_refl)|].
  intros _. destruct (findHandler _ _ _).
  - apply (keeps_invoke same same_refl same_trans).
  - apply (keeps_ret same same_refl).
Qed.

Lemma handleEventWith_world lower rt k d p w :
  world (handleEventWith lower rt k d p w) = w.
Proof. apply handleEventWith_keeps. Qed.

Lemma handleEvent_keeps rt k d p : keeps same (handleEvent rt k d p).
Proof. apply handleEventWith_keeps. Qed.

Lemma handleEvent_world rt k d p w : world (handleEvent rt k d p w) = w.
Proof. apply handleEvent_keeps. Qed.

Lemma notify_world rt id k p w : world (notify rt id k p w) = w.
Proof.
  unfold notify. destruct (live _ !! id); [|done].
  destruct (ignored _ _); [done|]. apply handleEvent_world.
Qed.

Lemma deliver_world rt id k p w : world (deliver rt id k p w) = w.
Proof.
  unfold deliver. destruct (live _ !! id); [|done]. apply handleEvent_world.
Qed.

(** ** [stopWatching] *)

Lemma forOf_close ids w :
  forOf ids watcher_close w
  = mkResult (mkWorld (this w) (closeAll ids (chokidar w))) [] (Normal tt).
Proof.
  revert w. induction ids as [|id ids IH]; intros w.
  - simpl. unfold ret, closeAll. simpl. rewrite chokidar_eta, world_eta. reflexivity.
  - simpl. unfold bind. simpl. rewrite IH. reflexivity.
Qed.

Lemma closeAll_lookup ids (l : gmap nat string) i :
  foldl (fun l id => delete id l) l ids !! i
  = if bool_decide (i ∈ ids) then None else l !! i.
Proof.
  revert l. induction ids as [|id ids IH]; intros l; simpl.
  - done.
  - rewrite IH. destruct (decide (i = id)) as [->|Hne].
    + rewrite lookup_delete_eq.
      rewrite (bool_decide_eq_true_2 (id ∈ id :: ids)) by (by left).
      by case_bool_decide.
    + rewrite lookup_delete_ne by done.
      case_bool_decide as H1; case_bool_decide as H2; try done.
      * exfalso. apply H2. by right.
      * exfalso. apply H1. by apply elem_of_cons in H2 as [?|?].
Qed.

Lemma stopWatching_eq w :
  stopWatching w
  = mkResult
      (mkWorld (set_watchers ∅ (this w))
         (closeAll (map snd (map_to_list (watchers (this w)))) (chokidar w)))
      [] (Normal tt).
Proof.
  unfold stopWatching, bind. simpl. rewrite forOf_close. reflexivity.
Qed.

(** ** [ignoreDirectory] and [unignoreDirectory] *)

(** What [ignoreDirectory] leaves in the ignore set, for any argument
    list: the directories that exist are added, the others are not. *)
Lemma ignoreDirectory_set fs dirs w :
  ignoredDirectories (this (world (ignoreDirectory fs dirs w)))
  = ignoredDirectories (this w)
    ∪ list_to_set (List.filter (existsSync fs) dirs).
Proof.
  unfold ignoreDirectory. revert w.
  induction dirs as [|d dirs IH]; intros w; simpl.
  - set_solver.
  - unfold bind. destruct (existsSync fs d) eqn:Hd; simpl.
    + rewrite IH. simpl. set_solver.
    + rewrite IH. simpl. set_solver.
Qed.

(** C9, as the code has it.  [ignoreDirectory] on a directory that does
    not exist reports the warning and records nothing: the engine is left
    as it was.  [unignoreDirectory] on a directory that is not in the
    ignore set reports its warning and leaves the engine as it was. *)
Theorem ignoreDirectory_missing_warns_and_skips (fs : FS) (w : World) (dir : string) :
  (existsSync fs dir = false ->
     ignoreDirectory fs [dir] w = mkResult w [warnMissing dir] (Normal tt))
  /\ (dir ∉ ignoredDirectories (this w) ->
     unignoreDirectory [dir] w = mkResult w [warnNotIgnored dir] (Normal tt)).
Proof.
  split.
  - intros Hd. unfold ignoreDirectory. rewrite forOf_one, Hd. reflexivity.
  - intros Hd. unfold unignoreDirectory. rewrite forOf_one.
    unfold bind. simpl. by rewrite bool_decide_eq_false_2.
Qed.

Lemma ignoreDirectory_missing_warns_and_skips_witness :
  let w := newWorld 1 "/base" None in
  existsSync ∅ "/nope" = false
  /\ ("/nope" ∉ ignoredDirectories (this w))
  /\ ignoreDirectory ∅ ["/nope"] w = mkResult w [warnMissing "/nope"] (Normal tt)
  /\ unignoreDirectory ["/nope"] w = mkResult w [warnNotIgnored "/nope"] (Normal tt).
Proof.
  intros w.
  assert (H1 : existsSync ∅ "/nope" = false) by reflexivity.
  assert (H2 : "/nope" ∉ ignoredDirectories (this w)) by (simpl; set_solver).
  destruct (ignoreDirectory_missing_warns_and_skips ∅ w "/nope") as [Hi Hu].
  split; [exact H1|]. split; [exact H2|]. split; [exact (Hi H1) | exact (Hu H2)].
Defined.

(** C9 as the specification words it fails: the directory that does not
    exist is not in the ignore set after the call. *)
Lemma ignoreDirectory_missing_is_not_recorded :
  let fs : FS := ∅ in
  let r := ignoreDirectory fs ["/nope"] (newWorld 1 "/base" None) in
  existsSync fs "/nope" = false
  /\ trace r = [warnMissing "/nope"]
  /\ ~ ("/nope" ∈ ignoredDirectories (this (world r))).
Proof.
  cbv zeta. split; [reflexivity|]. split; [reflexivity|].
  rewrite ignoreDirectory_set. simpl. set_solver.
Qed.

(** ** [path.dirname] shortens what it does not map to a root *)

Lemma length_dropWhile p (l : Chars.chars) :
  length (Chars.dropWhile p l) <= length l.
Proof.
  induction l as [|c l IH]; simpl; [lia|].
  destruct (p c); simpl; lia.
Qed.

Lemma dropWhile_head p (l : Chars.chars) c l' :
  Chars.dropWhile p l = c :: l' -> p c = false.
Proof.
  induction l as [|x l IH]; simpl; [done|].
  destruct (p x) eqn:Hx; [done|]. intros [= -> _]. done.
Qed.

Lemma length_to_string (l : Chars.chars) :
  String.length (Chars.to_string l) = length l.
Proof. induction l as [|c l IH]; simpl; [done|]. by rewrite IH. Qed.

Lemma length_of_string (s : string) :
  length (Chars.of_string s) = String.length s.
Proof. induction s as [|c s IH]; simpl; [done|]. by rewrite IH. Qed.

Lemma dirnameC_cases (p : Chars.chars) :
  Path.dirnameC p = [ "."%char ] \/ Path.dirnameC p = [ "/"%char ]
  \/ length (Path.dirnameC p) < length p.
Proof.
  destruct p as [|c0 rest]; [by left|]. unfold Path.dirnameC.
  set (r1 := Chars.dropWhile Chars.isSlash (rev rest)).
  destruct (Chars.dropWhile (fun c => negb (Chars.isSlash c)) r1)
    as [|sep before] eqn:Hr2.
  { destruct (Chars.isSlash c0); auto. }
  assert (Hlen : S (length (sep :: before)) <= length rest).
  { rewrite <- Hr2.
    pose proof (length_dropWhile Chars.isSlash (rev rest)) as H1.
    rewrite length_rev in H1. fold r1 in H1.
    destruct r1 as [|x r1'] eqn:Hr1; [done|].
    apply dropWhile_head in Hr1. simpl. rewrite Hr1. simpl.
    pose proof (length_dropWhile (fun c => negb (Chars.isSlash c)) r1').
    simpl in H1. lia. }
  right; right. simpl in Hlen.
  destruct (_ && _); simpl; [lia|]. rewrite length_rev. lia.
Qed.

Lemma dirname_cases (s : string) :
  Path.dirname s = "." \/ Path.dirname s = "/"
  \/ String.length (Path.dirname s) < String.length s.
Proof.
  unfold Path.dirname.
  destruct (dirnameC_cases (Chars.of_string s)) as [->|[->|H]]; auto.
  right; right. by rewrite length_to_string, <- length_of_string.
Qed.

Lemma enoughFuel_parent fuel currentDir :
  String.eqb currentDir (Path.dirname currentDir) = false ->
  enoughFuel (S fuel) currentDir ->
  enoughFuel fuel (Path.dirname currentDir).
Proof.
  intros Hne [[Heq _]|Hlen]; [congruence|].
  destruct (dirname_cases currentDir) as [->|[->|Hlt]].
  - left. split; [reflexivity | lia].
  - left. split; [reflexivity | lia].
  - right. lia.
Qed.

Lemma enoughFuel_start directory : enoughFuel (findHandlerFuel directory) directory.
Proof. right. unfold findHandlerFuel. lia. Qed.

(** The loop returns within its fuel, and what it returns is the callback
    of the first directory of the walk that has one. *)
Lemma findHandlerLoop_enough fuel handlersOf currentDir eventType :
  enoughFuel fuel currentDir ->
  findHandlerLoop fuel handlersOf currentDir eventType
  = Some (firstHandler handlersOf eventType (ancestorWalk fuel currentDir)).
Proof.
  revert currentDir. induction fuel as [|fuel IH]; intros currentDir Hfuel.
  - destruct Hfuel as [[_ H]|H]; lia.
  - simpl. destruct (String.eqb currentDir (Path.dirname currentDir)) eqn:Hfix; [done|].
    simpl. unfold handlerAt.
    pose proof (enoughFuel_parent _ _ Hfix Hfuel) as Hnext.
    destruct (handlersOf !! currentDir) as [handlers|]; [|by apply IH].
    destruct (handlers !! eventType); [done | by apply IH].
Qed.

(** The walk is the chain of parents of [directory], cut where a directory
    is its own parent. *)
Lemma ancestorWalk_chain fuel currentDir :
  enoughFuel fuel currentDir ->
  (forall i d, ancestorWalk fuel currentDir !! i = Some d ->
     d = Nat.iter i Path.dirname currentDir /\ Path.dirname d <> d)
  /\ Path.dirname (Nat.iter (length (ancestorWalk fuel currentDir)) Path.dirname currentDir)
     = Nat.iter (length (ancestorWalk fuel currentDir)) Path.dirname currentDir.
Proof.
  revert currentDir. induction fuel as [|fuel IH]; intros currentDir Hfuel.
  - destruct Hfuel as [[_ H]|H]; lia.
  - simpl. destruct (String.eqb currentDir (Path.dirname currentDir)) eqn:Hfix.
    + apply String.eqb_eq in Hfix. split; [done|]. simpl. congruence.
    + destruct (IH _ (enoughFuel_parent _ _ Hfix Hfuel)) as [Hi Hend].
      apply String.eqb_neq in Hfix. split.
      * intros [|i] d; simpl.
        -- intros [= <-]. split; [done | congruence].
        -- intros Hd. apply Hi in Hd as [-> Hne]. split; [|done].
           by rewrite <- Nat.iter_succ_r.
      * simpl length. rewrite !Nat.iter_succ_r. exact Hend.
Qed.

Lemma firstHandler_app handlersOf eventType nearer rest :
  (forall x, x ∈ nearer -> handlerAt handlersOf eventType x = None) ->
  firstHandler handlersOf eventType (nearer ++ rest)
  = firstHandler handlersOf eventType rest.
Proof.
  induction nearer as [|x nearer IH]; intros Hnone; simpl; [done|].
  rewrite (Hnone x) by (by left). apply IH. intros y Hy. apply Hnone. by right.
Qed.

(** C3.  [findHandler(directory, eventType)] returns within the fuel of
    the loop; it examines [directory], then its parent, and so on, each
    the [path.dirname] of the one before and none its own parent, and
    stops at the first directory that is its own parent; it returns the
    callback of the first directory of that walk that has one for
    [eventType], so a directory nearer to [directory] wins over one
    farther up, and [undefined] when no directory of the walk has one. *)
Theorem findHandler_walks_to_nearest_handler
  (fw : FileWatcher) (directory : string) (eventType : EventKind) :
  findHandlerLoop (findHandlerFuel directory) (dirHandlers fw) directory eventType
    = Some (findHandler fw directory eventType)
  /\ findHandler fw directory eventType
     = firstHandler (dirHandlers fw) eventType (ancestors directory)
  /\ (forall i d, ancestors directory !! i = Some d ->
        d = Nat.iter i Path.dirname directory /\ Path.dirname d <> d)
  /\ Path.dirname (Nat.iter (length (ancestors directory)) Path.dirname directory)
     = Nat.iter (length (ancestors directory)) Path.dirname directory
  /\ (forall nearer d farther callback,
        ancestors directory = nearer ++ d :: farther ->
        (forall x, x ∈ nearer -> handlerAt (dirHandlers fw) eventType x = None) ->
        handlerAt (dirHandlers fw) eventType d = Some callback ->
        findHandler fw directory eventType = Some callback)
  /\ ((forall x, x ∈ ancestors directory ->
         handlerAt (dirHandlers fw) eventType x = None) ->
      findHandler fw directory eventType = None).
Proof.
  pose proof (findHandlerLoop_enough _ (dirHandlers fw) _ eventType
                (enoughFuel_start directory)) as Hloop.
  assert (Hfind : findHandler fw directory eventType
                  = firstHandler (dirHandlers fw) eventType (ancestors directory)).
  { unfold findHandler. by rewrite Hloop. }
  destruct (ancestorWalk_chain _ _ (enoughFuel_start directory)) as [Hchain Hend].
  split; [by rewrite Hfind|]. split; [exact Hfind|].
  split; [exact Hchain|]. split; [exact Hend|]. split.
  - intros nearer d farther callback Hwalk Hnearer Hd.
    rewrite Hfind, Hwalk, firstHandler_app by done. simpl. by rewrite Hd.
  - intros Hnone. rewrite Hfind.
    rewrite <- (app_nil_r (ancestors directory)).
    by rewrite firstHandler_app.
Qed.

(** Handlers for "change" on [/a] and on [/a/b], an event in [/a/b/c]:
    the handler of [/a/b] is the one found. *)
Lemma findHandler_walks_to_nearest_handler_witness :
  ancestors "/a/b/c" = ["/a/b/c"] ++ "/a/b" :: ["/a"]
  /\ handlerAt (dirHandlers (this twoHandlers)) Change "/a" = Some handlerA
  /\ handlerAt (dirHandlers (this twoHandlers)) Change "/a/b" = Some handlerB
  /\ findHandler (this twoHandlers) "/a/b/c" Change = Some handlerB.
Proof.
  assert (Hwalk : ancestors "/a/b/c" = ["/a/b/c"] ++ "/a/b" :: ["/a"]) by reflexivity.
  assert (HB : handlerAt (dirHandlers (this twoHandlers)) Change "/a/b" = Some handlerB)
    by reflexivity.
  split; [exact Hwalk|]. split; [reflexivity|]. split; [exact HB|].
  destruct (findHandler_walks_to_nearest_handler (this twoHandlers) "/a/b/c" Change)
    as (_ & _ & _ & _ & Hnear & _).
  apply (Hnear ["/a/b/c"] "/a/b" ["/a"] handlerB Hwalk); [|exact HB].
  intros x Hx. apply list_elem_of_singleton in Hx as ->. reflexivity.
Defined.

(** ** [handleEvent] *)

Lemma size_positive (X : gset string) : (0 <? size X)%nat = true <-> X <> ∅.
Proof.
  rewrite Nat.ltb_lt. split.
  - intros H ->. rewrite size_empty in H. lia.
  - intros H. destruct (decide (size X = 0)) as [Hz|Hz]; [|lia].
    apply size_empty_iff in Hz. by apply leibniz_equiv in Hz.
Qed.

Lemma extension_gate fw filePath :
  (0 <? size (allowedExtensions fw))%nat
  && negb (bool_decide (extensionOf filePath ∈ allowedExtensions fw)) = false
  <-> extensionPasses fw filePath.
Proof.
  unfold extensionPasses. rewrite andb_false_iff, negb_false_iff, bool_decide_eq_true.
  split; (intros [H|H]; [left|by right]).
  - destruct (decide (allowedExtensions fw = ∅)) as [|Hne]; [done|].
    apply size_positive in Hne. congruence.
  - rewrite H, size_empty. reflexivity.
Qed.

(** The outcome of [handleEventWith], branch by branch. *)
Lemma handleEventWith_eq lower rt eventType directory filePath w :
  handleEventWith lower rt eventType directory filePath w
  = let fw := this w in
    let filename := Path.basename filePath in
    match rt filename (relativeOf fw filePath) with
    | None => mkResult w [] (Throw (SyntaxError ("[\\/]" ++ filename ++ "$")))
    | Some rel =>
        let relativePath := (baseDir fw ++ "/" ++ rel)%string in
        if (0 <? size (allowedExtensions fw))%nat
           && negb (bool_decide (lower (Path.extname (Path.basename filePath)) ∈ allowedExtensions fw))
        then mkResult w [] (Normal tt)
        else if bool_decide (filePath ∈ initialFiles fw) && bool_decide (eventType = Add)
        then mkResult w [] (Normal tt)
        else
          match findHandler fw directory eventType with
          | Some handler =>
              mkResult w
                [Emit eventType directory filename relativePath;
                 Call handler directory filename relativePath eventType]
                (match cb_run handler directory filename relativePath eventType with
                 | Some e => Throw e
                 | None => Normal tt
                 end)
          | None => mkResult w [Emit eventType directory filename relativePath] (Normal tt)
          end
    end.
Proof.
  unfold handleEventWith, relativeOf, bind. simpl.
  destruct (rt _ _) as [rel|]; [|reflexivity].
  destruct (_ && _); [reflexivity|].
  destruct (_ && _); [reflexivity|].
  simpl. destruct (findHandler _ _ _) as [h|]; [|reflexivity].
  unfold invoke, bind. simpl.
  destruct (cb_run h _ _ _ _); reflexivity.
Qed.

(** The outcome of [handleEvent], branch by branch. *)
Lemma handleEvent_eq rt eventType directory filePath w :
  handleEvent rt eventType directory filePath w
  = let fw := this w in
    let filename := Path.basename filePath in
    match rt filename (relativeOf fw filePath) with
    | None => mkResult w [] (Throw (SyntaxError ("[\\/]" ++ filename ++ "$")))
    | Some rel =>
        let relativePath := (baseDir fw ++ "/" ++ rel)%string in
        if (0 <? size (allowedExtensions fw))%nat
           && negb (bool_decide (extensionOf filePath ∈ allowedExtensions fw))
        then mkResult w [] (Normal tt)
        else if bool_decide (filePath ∈ initialFiles fw) && bool_decide (eventType = Add)
        then mkResult w [] (Normal tt)
        else
          match findHandler fw directory eventType with
          | Some handler =>
              mkResult w
                [Emit eventType directory filename relativePath;
                 Call handler directory filename relativePath eventType]
                (match cb_run handler directory filename relativePath eventType with
                 | Some e => Throw e
                 | None => Normal tt
                 end)
          | None => mkResult w [Emit eventType directory filename relativePath] (Normal tt)
          end
    end.
Proof. exact (handleEventWith_eq Chars.toLowerCase rt eventType directory filePath w). Qed.

(** An "add" of an initial file is dropped, by the extension filter or by
    the initial-scan test (or the pattern fails first). *)
Lemma initial_add_dropped rt w directory filePath :
  filePath ∈ initialFiles (this w) ->
  trace (handleEvent rt Add directory filePath w) = [].
Proof.
  intros Hin. rewrite handleEvent_eq. cbv zeta.
  destruct (rt _ _); [|done]. destruct (_ && _); [done|].
  rewrite bool_decide_eq_true_2 by done. by rewrite bool_decide_eq_true_2.
Qed.

(** C2.  An "add" notification for a path of the initial file set leaves
    no trace: no event is emitted and no handler is called.  An "add"
    notification for a path outside the set, whose extension passes the
    filter (and whose pattern compiles), is emitted. *)
Theorem handleEvent_suppresses_initial_add
  (rt : string -> string -> option string) (w : World) (directory filePath : string) :
  (filePath ∈ initialFiles (this w) ->
     trace (handleEvent rt Add directory filePath w) = []
     /\ world (handleEvent rt Add directory filePath w) = w)
  /\ (forall rel,
        rt (Path.basename filePath) (relativeOf (this w) filePath) = Some rel ->
        extensionPasses (this w) filePath ->
        filePath ∉ initialFiles (this w) ->
        exists calls,
          trace (handleEvent rt Add directory filePath w)
          = Emit Add directory (Path.basename filePath) (baseDir (this w) ++ "/" ++ rel)
              :: calls).
Proof.
  split.
  - intros Hin. split; [by apply initial_add_dropped | apply handleEvent_world].
  - intros rel Hrel Hext Hout. rewrite handleEvent_eq. cbv zeta. rewrite Hrel.
    apply extension_gate in Hext. rewrite Hext.
    rewrite (bool_decide_eq_false_2 _ Hout). simpl.
    destruct (findHandler _ _ _); eauto.
Qed.

(** A file of the snapshot and a file created later. *)
Lemma handleEvent_suppresses_initial_add_witness :
  "/base/old.txt" ∈ initialFiles (this watchingBase)
  /\ trace (handleEvent Regex.replaceTail Add "/base" "/base/old.txt" watchingBase) = []
  /\ exists calls,
       trace (handleEvent Regex.replaceTail Add "/base" "/base/sub/new.txt" watchingBase)
       = Emit Add "/base" "new.txt" "/base/sub" :: calls.
Proof.
  assert (Hold : "/base/old.txt" ∈ initialFiles (this watchingBase))
    by (vm_compute; set_solver).
  split; [exact Hold|]. split.
  - apply (handleEvent_suppresses_initial_add Regex.replaceTail watchingBase
             "/base" "/base/old.txt"). exact Hold.
  - apply (handleEvent_suppresses_initial_add Regex.replaceTail watchingBase
             "/base" "/base/sub/new.txt" ) with (rel := "sub").
    + reflexivity.
    + left. reflexivity.
    + vm_compute. set_solver.
Defined.

(** [setAllowedExtensions] replaces the set by the lower-cased arguments,
    whatever it held before, and touches nothing else. *)
Lemma setAllowedExtensions_eq extensions w :
  setAllowedExtensions extensions w
  = mkResult
      (mkWorld (set_allowedExtensions
                  (list_to_set (map Chars.toLowerCase extensions)) (this w))
               (chokidar w))
      [] (Normal tt).
Proof. reflexivity. Qed.

Lemma extension_gate_for (allowed : gset string) (extension : string) :
  (0 <? size allowed)%nat && negb (bool_decide (extension ∈ allowed)) = false
  <-> allowed = ∅ \/ extension ∈ allowed.
Proof.
  rewrite andb_false_iff, negb_false_iff, bool_decide_eq_true.
  split; (intros [H|H]; [left|by right]).
  - destruct (decide (allowed = ∅)) as [|Hne]; [done|].
    apply size_positive in Hne. congruence.
  - rewrite H, size_empty. reflexivity.
Qed.

(** C6.  Whatever [String.prototype.toLowerCase] does to the extension
    (the theorem is about [handleEventWith], for every lower-casing
    function): with a non-empty set of allowed extensions that does not
    hold the lower-cased extension of the file, a notification of any kind
    leaves no trace: no event is emitted and no handler is called.  With
    an empty set (or one that holds the lower-cased extension) the
    extension filter drops nothing: unless the notification is an "add" of
    an initial file (or the pattern does not compile), the event is
    emitted. *)
Theorem handleEvent_extension_filter
  (toLowerCase : string -> string)
  (rt : string -> string -> option string) (w : World) (eventType : EventKind)
  (directory filePath : string) :
  let extension := toLowerCase (Path.extname (Path.basename filePath)) in
  (allowedExtensions (this w) <> ∅ ->
   extension ∉ allowedExtensions (this w) ->
     trace (handleEventWith toLowerCase rt eventType directory filePath w) = []
     /\ world (handleEventWith toLowerCase rt eventType directory filePath w) = w)
  /\ (allowedExtensions (this w) = ∅
      \/ extension ∈ allowedExtensions (this w) ->
      forall rel,
        rt (Path.basename filePath) (relativeOf (this w) filePath) = Some rel ->
        ~ (filePath ∈ initialFiles (this w) /\ eventType = Add) ->
        exists calls,
          trace (handleEventWith toLowerCase rt eventType directory filePath w)
          = Emit eventType directory (Path.basename filePath)
              (baseDir (this w) ++ "/" ++ rel) :: calls).
Proof.
  cbv zeta. split.
  - intros Hne Hout. split; [|apply handleEventWith_world].
    rewrite handleEventWith_eq. cbv zeta. destruct (rt _ _); [|done].
    apply size_positive in Hne. rewrite Hne.
    by rewrite (bool_decide_eq_false_2 _ Hout).
  - intros Hpass rel Hrel Hinit. rewrite handleEventWith_eq. cbv zeta. rewrite Hrel.
    apply extension_gate_for in Hpass. rewrite Hpass.
    replace (bool_decide (filePath ∈ initialFiles (this w)) && bool_decide (eventType = Add))
      with false.
    + destruct (findHandler _ _ _); eauto.
    + symmetry. apply andb_false_iff.
      destruct (decide (filePath ∈ initialFiles (this w))) as [Hin|Hin].
      * right. apply bool_decide_eq_false_2. tauto.
      * left. by apply bool_decide_eq_false_2.
Qed.

(** Allowed extensions [.js], ASCII text: a change of [foo.ts] is dropped,
    a change of [foo.JS] is emitted. *)
Lemma handleEvent_extension_filter_witness :
  allowedExtensions (this onlyJs) <> ∅
  /\ (Chars.toLowerCase (Path.extname (Path.basename "/base/src/foo.ts"))
        ∉ allowedExtensions (this onlyJs))
  /\ (Chars.toLowerCase (Path.extname (Path.basename "/base/src/foo.JS"))
        ∈ allowedExtensions (this onlyJs))
  /\ trace (handleEventWith Chars.toLowerCase Regex.replaceTail Change "/base"
              "/base/src/foo.ts" onlyJs) = []
  /\ exists calls,
       trace (handleEventWith Chars.toLowerCase Regex.replaceTail Change "/base"
                "/base/src/foo.JS" onlyJs)
       = Emit Change "/base" "foo.JS" "/base/src" :: calls.
Proof.
  assert (H1 : allowedExtensions (this onlyJs) <> ∅).
  { intros H. assert (Hin : ".js" ∈ allowedExtensions (this onlyJs))
      by (vm_compute; set_solver).
    rewrite H in Hin. set_solver. }
  assert (H2 : Chars.toLowerCase (Path.extname (Path.basename "/base/src/foo.ts"))
                 ∉ allowedExtensions (this onlyJs))
    by (vm_compute; set_solver).
  assert (H3 : Chars.toLowerCase (Path.extname (Path.basename "/base/src/foo.JS"))
                 ∈ allowedExtensions (this onlyJs))
    by (vm_compute; set_solver).
  split; [exact H1|]. split; [exact H2|]. split; [exact H3|]. split.
  - apply (handleEvent_extension_filter Chars.toLowerCase Regex.replaceTail onlyJs
             Change "/base" "/base/src/foo.ts"); assumption.
  - apply (handleEvent_extension_filter Chars.toLowerCase Regex.replaceTail onlyJs
             Change "/base" "/base/src/foo.JS") with (rel := "src").
    + right. exact H3.
    + reflexivity.
    + intros [_ [=]].
Defined.

(** C7, as the code has it.  When the handler found for an event that
    passed the filters throws, [handleEvent] has emitted the event and
    called the handler, and the error leaves [handleEvent] as it is:
    nothing catches it, nothing reports it, and the engine state, its
    subscriptions included, is what it was. *)
Theorem handleEvent_propagates_handler_error
  (rt : string -> string -> option string) (w : World) (eventType : EventKind)
  (directory filePath rel : string) (handler : Callback) (e : Error) :
  rt (Path.basename filePath) (relativeOf (this w) filePath) = Some rel ->
  extensionPasses (this w) filePath ->
  ~ (filePath ∈ initialFiles (this w) /\ eventType = Add) ->
  findHandler (this w) directory eventType = Some handler ->
  cb_run handler directory (Path.basename filePath)
         (baseDir (this w) ++ "/" ++ rel) eventType = Some e ->
  handleEvent rt eventType directory filePath w
  = mkResult w
      [Emit eventType directory (Path.basename filePath) (baseDir (this w) ++ "/" ++ rel);
       Call handler directory (Path.basename filePath) (baseDir (this w) ++ "/" ++ rel)
            eventType]
      (Throw e).
Proof.
  intros Hrel Hpass Hinit Hfind Hrun.
  rewrite handleEvent_eq. cbv zeta. rewrite Hrel.
  apply extension_gate in Hpass. rewrite Hpass.
  replace (bool_decide (filePath ∈ initialFiles (this w)) && bool_decide (eventType = Add))
    with false.
  - by rewrite Hfind, Hrun.
  - symmetry. apply andb_false_iff.
    destruct (decide (filePath ∈ initialFiles (this w))) as [Hin|Hin].
    + right. apply bool_decide_eq_false_2. tauto.
    + left. by apply bool_decide_eq_false_2.
Qed.

(** A handler that throws, registered for "change" on [/base]. *)
Lemma handleEvent_propagates_handler_error_witness :
  findHandler (this withThrower) "/base" Change = Some thrower
  /\ handleEvent Regex.replaceTail Change "/base" "/base/src/x.js" withThrower
     = mkResult withThrower
         [Emit Change "/base" "x.js" "/base/src";
          Call thrower "/base" "x.js" "/base/src" Change]
         (Throw (UserError "boom")).
Proof.
  assert (Hfind : findHandler (this withThrower) "/base" Change = Some thrower)
    by reflexivity.
  split; [exact Hfind|].
  apply (handleEvent_propagates_handler_error Regex.replaceTail withThrower Change
           "/base" "/base/src/x.js" "src" thrower (UserError "boom")).
  - reflexivity.
  - left. reflexivity.
  - intros [_ [=]].
  - exact Hfind.
  - reflexivity.
Defined.

(** C7 as the specification words it fails: the error of the handler is
    not caught, [handleEvent] ends by throwing it, and nothing but the
    emission and the call is observed. *)
Lemma handleEvent_does_not_catch_handler_error :
  let r := handleEvent Regex.replaceTail Change "/base" "/base/src/x.js" withThrower in
  findHandler (this withThrower) "/base" Change = Some thrower
  /\ cb_run thrower "/base" "x.js" "/base/src" Change = Some (UserError "boom")
  /\ completion r = Throw (UserError "boom")
  /\ completion r <> Normal tt
  /\ trace r = [Emit Change "/base" "x.js" "/base/src";
                Call thrower "/base" "x.js" "/base/src" Change].
Proof.
  cbv zeta. split; [reflexivity|]. split; [reflexivity|].
  assert (H : completion (handleEvent Regex.replaceTail Change "/base" "/base/src/x.js"
                            withThrower) = Throw (UserError "boom")) by reflexivity.
  split; [exact H|]. split; [rewrite H; discriminate | reflexivity].
Qed.

(** C5 at a file directly inside the base directory.  The relative path
    of [/base/foo.js] is [foo.js]; the pattern wants a separator before
    the file name, finds none, and strips nothing: the path handed to the
    listeners and to the handler is the path of the file itself. *)
Theorem handleEvent_relativePath_of_top_level_file :
  let w := world (setHandler "/base" Change handlerA (newWorld 1 "/base" None)) in
  relativeOf (this w) "/base/foo.js" = "foo.js"
  /\ Regex.replaceTail "foo.js" "foo.js" = Some "foo.js"
  /\ handleEvent Regex.replaceTail Change "/base" "/base/foo.js" w
     = mkResult w
         [Emit Change "/base" "foo.js" "/base/foo.js";
          Call handlerA "/base" "foo.js" "/base/foo.js" Change]
         (Normal tt).
Proof.
  cbv zeta. split; [reflexivity|]. split; [reflexivity|].
  rewrite handleEvent_eq. reflexivity.
Qed.

(** One level down the file name is stripped. *)
Example handleEvent_relativePath_below :
  trace (handleEvent Regex.replaceTail Change "/base" "/base/sub/foo.js"
           (newWorld 1 "/base" None))
  = [Emit Change "/base" "foo.js" "/base/sub"].
Proof. reflexivity. Qed.

(** ** The [ignored] callback *)

Lemma append_slash_truthy (a b : string) : truthy (a ++ "/" ++ b) = true.
Proof. by destruct a. Qed.

(** The callback does not look at the candidate: it answers [true] as
    soon as the ignore set has an element. *)
Lemma ignored_eq fw candidate :
  ignored fw candidate = negb (bool_decide (ignoredDirectories fw = ∅)).
Proof.
  unfold ignored. case_bool_decide as H.
  - rewrite H, elements_empty. reflexivity.
  - destruct (elements (ignoredDirectories fw)) as [|d l] eqn:Hl.
    + apply elements_empty_inv, leibniz_equiv in Hl. done.
    + simpl. by rewrite append_slash_truthy.
Qed.

(** C1 at a sibling of an ignored directory.  [/base/a] is ignored, a
    handler watches [/base/b], and [/base/b/x.js] changes: the path lies
    under no ignored directory, the callback answers [true] all the same,
    and the notification that is delivered while nothing is ignored is
    lost. *)
Theorem ignored_hides_sibling_directory :
  let fs : FS := {[ "/base/a" := Dir NoEntry ]} in
  let w0 := world (setHandler "/base/b" Change handlerA (newWorld 1 "/base" None)) in
  let w := world (ignoreDirectory fs ["/base/a"] w0) in
  elements (ignoredDirectories (this w)) = ["/base/a"]
  /\ liesUnder "/base/a" "/base/b/x.js" = false
  /\ liesUnderIgnored (this w) "/base/b/x.js" = false
  /\ ignored (this w) "/base/b/x.js" = true
  /\ live (chokidar w) !! 0 = Some "/base/b"
  /\ trace (notify Regex.replaceTail 0 Change "/base/b/x.js" w) = []
  /\ trace (notify Regex.replaceTail 0 Change "/base/b/x.js" w0)
     = [Emit Change "/base/b" "x.js" "/base/b";
        Call handlerA "/base/b" "x.js" "/base/b" Change].
Proof.
  cbv zeta. repeat split; reflexivity.
Qed.

(** ** [watchDirectory] and [setHandler] *)

Lemma watchDirectory_eq directory w :
  watchDirectory directory w
  = match watchers (this w) !! directory with
    | Some _ => mkResult w [] (Normal tt)
    | None =>
        let id := nextWatcher (chokidar w) in
        mkResult
          (mkWorld (set_watchers (<[directory := id]> (watchers (this w))) (this w))
             {| nextWatcher := S id; live := <[id := directory]> (live (chokidar w)) |})
          [] (Normal tt)
    end.
Proof.
  unfold watchDirectory, bind. simpl.
  destruct (watchers (this w) !! directory); reflexivity.
Qed.

Lemma setHandler_eq directory eventType callback w :
  setHandler directory eventType callback w
  = watchDirectory directory
      (mkWorld (set_dirHandlers
                  (withHandler directory eventType callback (dirHandlers (this w)))
                  (this w))
               (chokidar w)).
Proof.
  unfold setHandler, withHandler.
  rewrite (bind_pure getThis _ w (this w) w) by reflexivity.
  destruct (dirHandlers (this w) !! directory) as [handlers|] eqn:Hd.
  - rewrite (bind_pure (ret tt) _ w tt w) by reflexivity.
    rewrite (bind_pure getThis _ w (this w) w) by reflexivity.
    rewrite Hd. erewrite bind_pure by reflexivity. reflexivity.
  - erewrite bind_pure by reflexivity.
    erewrite bind_pure by reflexivity.
    cbn [this set_dirHandlers dirHandlers].
    rewrite lookup_insert_eq.
    erewrite bind_pure by reflexivity.
    cbn [this chokidar set_dirHandlers dirHandlers default].
    rewrite insert_insert_eq. reflexivity.
Qed.

Lemma handlerAt_withHandler directory eventType callback handlersOf d k :
  handlerAt (withHandler directory eventType callback handlersOf) k d
  = if bool_decide (d = directory /\ k = eventType) then Some callback
    else handlerAt handlersOf k d.
Proof.
  unfold handlerAt, withHandler.
  destruct (decide (d = directory)) as [->|Hd].
  - rewrite lookup_insert_eq. destruct (decide (k = eventType)) as [->|Hk].
    + rewrite lookup_insert_eq. by rewrite bool_decide_eq_true_2.
    + rewrite lookup_insert_ne by done.
      rewrite bool_decide_eq_false_2 by tauto.
      by destruct (handlersOf !! directory).
  - rewrite lookup_insert_ne by done. by rewrite bool_decide_eq_false_2 by tauto.
Qed.

(** [setHandler] leaves the initial files and the configuration alone. *)
Lemma setHandler_stores_handler_frame w directory eventType callback :
  initialFiles (this (world (setHandler directory eventType callback w)))
    = initialFiles (this w)
  /\ ignoredDirectories (this (world (setHandler directory eventType callback w)))
    = ignoredDirectories (this w)
  /\ allowedExtensions (this (world (setHandler directory eventType callback w)))
    = allowedExtensions (this w)
  /\ monitoredDirectories (this (world (setHandler directory eventType callback w)))
    = monitoredDirectories (this w)
  /\ baseDir (this (world (setHandler directory eventType callback w)))
    = baseDir (this w).
Proof.
  rewrite setHandler_eq, watchDirectory_eq.
  cbn [this set_dirHandlers watchers].
  by destruct (watchers (this w) !! directory).
Qed.

(** ** The registry and chokidar agree *)

Lemma carries_refl I w : carries I w w.
Proof. by intros H. Qed.

Lemma carries_trans I a b c : carries I a b -> carries I b c -> carries I a c.
Proof. unfold carries. auto. Qed.

Lemma wellFormed_new pid cwd processId : wellFormed (newWorld pid cwd processId).
Proof.
  split; simpl.
  - intros d id. by rewrite !lookup_empty.
  - intros id d. by rewrite lookup_empty.
Qed.

(** [wellFormed] looks at the registry and at chokidar only. *)
Lemma wellFormed_ext a b :
  watchers (this b) = watchers (this a) -> chokidar b = chokidar a ->
  carries wellFormed a b.
Proof. unfold carries, wellFormed. by intros -> ->. Qed.

Lemma watchDirectory_wellFormed directory :
  keeps (carries wellFormed) (watchDirectory directory).
Proof.
  intros w [Hreg Hnext]. rewrite watchDirectory_eq.
  destruct (watchers (this w) !! directory) as [id0|] eqn:Hw; [done|].
  cbv zeta. split; simpl.
  - intros d id. destruct (decide (id = nextWatcher (chokidar w))) as [->|Hid].
    + rewrite lookup_insert_eq. destruct (decide (d = directory)) as [->|Hd].
      * by rewrite lookup_insert_eq.
      * rewrite lookup_insert_ne by done. split; [|congruence].
        intros Hreg'. apply Hreg, Hnext in Hreg'. lia.
    + rewrite (lookup_insert_ne (live (chokidar w))) by done.
      destruct (decide (d = directory)) as [->|Hd].
      * rewrite lookup_insert_eq. split; [congruence|].
        intros Hl. apply Hreg in Hl. congruence.
      * rewrite lookup_insert_ne by done. apply Hreg.
  - intros id d. destruct (decide (id = nextWatcher (chokidar w))) as [->|Hid].
    + lia.
    + rewrite lookup_insert_ne by done. intros Hl. apply Hnext in Hl. lia.
Qed.

Lemma stopWatching_live w :
  wellFormed w -> live (chokidar (world (stopWatching w))) = ∅.
Proof.
  intros [Hreg _]. rewrite stopWatching_eq. simpl.
  apply map_eq. intros id. rewrite lookup_empty, closeAll_lookup.
  case_bool_decide as Hin; [done|].
  destruct (live (chokidar w) !! id) as [d|] eqn:Hl; [|done].
  exfalso. apply Hin. apply Hreg in Hl.
  apply list_elem_of_fmap. exists (d, id). split; [done|].
  by apply elem_of_map_to_list.
Qed.

Lemma stopWatching_wellFormed : keeps (carries wellFormed) stopWatching.
Proof.
  intros w Hwf. pose proof (stopWatching_live w Hwf) as Hlive.
  destruct Hwf as [_ Hnext].
  rewrite stopWatching_eq in *. simpl in Hlive. split; simpl.
  - intros d id. by rewrite Hlive, !lookup_empty.
  - intros id d. by rewrite Hlive, lookup_empty.
Qed.

Lemma setHandler_wellFormed directory eventType callback :
  keeps (carries wellFormed) (setHandler directory eventType callback).
Proof.
  intros w Hwf. rewrite setHandler_eq.
  apply watchDirectory_wellFormed. revert Hwf. by apply wellFormed_ext.
Qed.

Lemma startWatching_wellFormed fs : keeps (carries wellFormed) (startWatching fs).
Proof.
  unfold startWatching.
  apply (keeps_bind _ (carries_trans wellFormed));
    [apply (keeps_getThis _ (carries_refl wellFormed))|].
  intros fw. apply (keeps_bind _ (carries_trans wellFormed)).
  - apply (keeps_forOf _ (carries_refl wellFormed) (carries_trans wellFormed)).
    intros d w. unfold captureInitialFiles.
    destruct (fs !! d) as [[|entries]|]; try apply carries_refl.
    by apply wellFormed_ext.
  - intros _.
    apply (keeps_forOf _ (carries_refl wellFormed) (carries_trans wellFormed)).
    apply watchDirectory_wellFormed.
Qed.

(** Every operation keeps the agreement, so every world a session reaches
    from a new engine has it. *)
Lemma runOp_wellFormed rt op : keeps (carries wellFormed) (runOp rt op).
Proof.
  destruct op as [fs| |d k cb|fs ds|ds|es|ds|id k p|id k p]; simpl.
  - apply startWatching_wellFormed.
  - apply stopWatching_wellFormed.
  - apply setHandler_wellFormed.
  - unfold ignoreDirectory.
    apply (keeps_forOf _ (carries_refl wellFormed) (carries_trans wellFormed)).
    intros dir w. destruct (negb _); [apply carries_refl | by apply wellFormed_ext].
  - unfold unignoreDirectory.
    apply (keeps_forOf _ (carries_refl wellFormed) (carries_trans wellFormed)).
    intros dir.
    apply (keeps_bind _ (carries_trans wellFormed));
      [apply (keeps_getThis _ (carries_refl wellFormed))|].
    intros fw w. destruct (bool_decide _); [by apply wellFormed_ext | apply carries_refl].
  - intros w. by apply wellFormed_ext.
  - intros w. by apply wellFormed_ext.
  - intros w. rewrite notify_world. apply carries_refl.
  - intros w. rewrite deliver_world. apply carries_refl.
Qed.

Lemma runOps_wellFormed rt ops : forall w, wellFormed w -> wellFormed (runOps rt ops w).
Proof.
  induction ops as [|op ops IH]; intros w Hwf; simpl; [done|].
  apply IH. by apply (runOp_wellFormed rt op w).
Qed.

(** C8.  [stopWatching()] returns without an error or an observable
    effect; afterwards the registry is empty and no subscription that was
    registered is open any more, while subscriptions chokidar holds for
    others, the handler table, the ignore set, the allowed extensions, the
    monitored directories (and the base directory and the initial files)
    are what they were; on an engine whose registry is empty, as it is when
    watching never started, the call changes nothing.  Where the registry
    and chokidar agree, as they do in every world a session reaches, no
    subscription at all is open afterwards, and they still agree. *)
Theorem stopWatching_closes_and_keeps_configuration (w : World) :
  let r := stopWatching w in
  completion r = Normal tt
  /\ trace r = []
  /\ watchers (this (world r)) = ∅
  /\ (forall d id, watchers (this w) !! d = Some id ->
        live (chokidar (world r)) !! id = None)
  /\ (forall id, (forall d, watchers (this w) !! d <> Some id) ->
        live (chokidar (world r)) !! id = live (chokidar w) !! id)
  /\ dirHandlers (this (world r)) = dirHandlers (this w)
  /\ ignoredDirectories (this (world r)) = ignoredDirectories (this w)
  /\ allowedExtensions (this (world r)) = allowedExtensions (this w)
  /\ monitoredDirectories (this (world r)) = monitoredDirectories (this w)
  /\ initialFiles (this (world r)) = initialFiles (this w)
  /\ baseDir (this (world r)) = baseDir (this w)
  /\ (watchers (this w) = ∅ -> world r = w)
  /\ (forall pid cwd processId,
        stopWatching (newWorld pid cwd processId)
        = mkResult (newWorld pid cwd processId) [] (Normal tt))
  /\ (wellFormed w ->
        live (chokidar (world r)) = ∅ /\ wellFormed (world r))
  /\ (forall rt ops pid cwd processId,
        wellFormed (runOps rt ops (newWorld pid cwd processId))).
Proof.
  cbv zeta.
  assert (Hwf : wellFormed w ->
                live (chokidar (world (stopWatching w))) = ∅
                /\ wellFormed (world (stopWatching w))).
  { intros H. split; [by apply stopWatching_live | by apply stopWatching_wellFormed]. }
  revert Hwf. rewrite stopWatching_eq. simpl. intros Hwf.
  split_and!; try done.
  - intros d id Hd. rewrite closeAll_lookup.
    rewrite bool_decide_eq_true_2; [done|].
    apply list_elem_of_fmap. exists (d, id). split; [done|].
    by apply elem_of_map_to_list.
  - intros id Hid. rewrite closeAll_lookup.
    rewrite bool_decide_eq_false_2; [done|].
    intros Hin. apply list_elem_of_fmap in Hin as [[d id'] [-> Hin]].
    apply elem_of_map_to_list in Hin. by apply (Hid d).
  - intros Hempty. destruct w as [fw c]. simpl in *.
    rewrite Hempty, map_to_list_empty. unfold closeAll. simpl.
    rewrite chokidar_eta. f_equal.
    destruct fw; simpl in *; by subst.
  - intros rt ops pid cwd processId. apply runOps_wellFormed, wellFormed_new.
Qed.

(** On a new engine the call changes nothing; on the engine with handlers
    on [/a] and [/a/b] it closes both subscriptions. *)
Lemma stopWatching_closes_and_keeps_configuration_witness :
  let w := newWorld 1 "/base" None in
  watchers (this w) = ∅
  /\ world (stopWatching w) = w
  /\ wellFormed twoHandlers
  /\ watchers (this twoHandlers) !! "/a/b" = Some 1
  /\ live (chokidar twoHandlers) !! 1 = Some "/a/b"
  /\ live (chokidar (world (stopWatching twoHandlers))) !! 1 = None
  /\ live (chokidar (world (stopWatching twoHandlers))) = ∅.
Proof.
  intros w.
  destruct (stopWatching_closes_and_keeps_configuration w)
    as (_ & _ & _ & _ & _ & _ & _ & _ & _ & _ & _ & Hnoop & _).
  destruct (stopWatching_closes_and_keeps_configuration twoHandlers)
    as (_ & _ & _ & Hclosed & _ & _ & _ & _ & _ & _ & _ & _ & _ & Hwf & Hreach).
  assert (Htwo : wellFormed twoHandlers).
  { exact (Hreach Regex.replaceTail
             [OpSetHandler "/a" Change handlerA; OpSetHandler "/a/b" Change handlerB]
             1 "/base" None). }
  assert (Hreg : watchers (this twoHandlers) !! "/a/b" = Some 1) by reflexivity.
  split; [reflexivity|]. split; [apply Hnoop; reflexivity|].
  split; [exact Htwo|]. split; [exact Hreg|]. split; [reflexivity|].
  split; [exact (Hclosed "/a/b" 1 Hreg) | exact (proj1 (Hwf Htwo))].
Defined.

(** C4, as the code has it.  [setHandler(directory, eventType, callback)]
    returns without an error or an observable effect.  It binds
    [(directory, eventType)] to [callback] under the directory string as
    it was passed, whatever was bound before, and leaves every other pair
    as it was.  Afterwards the registry has a subscription for that same
    string: the one it had, with chokidar untouched, or else a new one
    that chokidar has opened on it, whether [startWatching] was called or
    not.  The configuration sets and the initial files are untouched.
    Where the registry and chokidar agree, they still do, and the
    subscription registered for the directory is open on it. *)
Theorem setHandler_stores_under_the_given_directory
  (w : World) (directory : string) (eventType : EventKind) (callback : Callback) :
  let r := setHandler directory eventType callback w in
  completion r = Normal tt
  /\ trace r = []
  /\ handlerAt (dirHandlers (this (world r))) eventType directory = Some callback
  /\ (forall d k, ~ (d = directory /\ k = eventType) ->
        handlerAt (dirHandlers (this (world r))) k d
        = handlerAt (dirHandlers (this w)) k d)
  /\ is_Some (watchers (this (world r)) !! directory)
  /\ (watchers (this w) !! directory = None ->
        watchers (this (world r))
          = <[directory := nextWatcher (chokidar w)]> (watchers (this w))
        /\ live (chokidar (world r))
          = <[nextWatcher (chokidar w) := directory]> (live (chokidar w))
        /\ nextWatcher (chokidar (world r)) = S (nextWatcher (chokidar w)))
  /\ (is_Some (watchers (this w) !! directory) ->
        watchers (this (world r)) = watchers (this w)
        /\ chokidar (world r) = chokidar w)
  /\ ignoredDirectories (this (world r)) = ignoredDirectories (this w)
  /\ allowedExtensions (this (world r)) = allowedExtensions (this w)
  /\ monitoredDirectories (this (world r)) = monitoredDirectories (this w)
  /\ initialFiles (this (world r)) = initialFiles (this w)
  /\ baseDir (this (world r)) = baseDir (this w)
  /\ (wellFormed w ->
        wellFormed (world r)
        /\ exists id, watchers (this (world r)) !! directory = Some id
                     /\ live (chokidar (world r)) !! id = Some directory).
Proof.
  cbv zeta.
  assert (Hwf : wellFormed w ->
            wellFormed (world (setHandler directory eventType callback w))
            /\ exists id,
                 watchers (this (world (setHandler directory eventType callback w)))
                   !! directory = Some id
                 /\ live (chokidar (world (setHandler directory eventType callback w)))
                      !! id = Some directory).
  { intros H. apply (setHandler_wellFormed directory eventType callback w) in H.
    split; [exact H|].
    assert (Hsome : is_Some (watchers (this (world (setHandler directory eventType
                                                       callback w))) !! directory)).
    { rewrite setHandler_eq, watchDirectory_eq.
      cbn [this set_dirHandlers watchers].
      destruct (watchers (this w) !! directory) as [id|] eqn:Hw; simpl.
      - by rewrite Hw.
      - by rewrite lookup_insert_eq. }
    destruct Hsome as [id Hid]. exists id. split; [exact Hid|].
    by apply H. }
  revert Hwf. rewrite setHandler_eq, watchDirectory_eq. intros Hwf.
  assert (Hat : forall ws c,
            handlerAt (dirHandlers (this (mkWorld (set_watchers ws
              (set_dirHandlers (withHandler directory eventType callback
                                  (dirHandlers (this w))) (this w))) c)))
              eventType directory = Some callback
            /\ forall d k, ~ (d = directory /\ k = eventType) ->
                handlerAt (dirHandlers (this (mkWorld (set_watchers ws
                  (set_dirHandlers (withHandler directory eventType callback
                                      (dirHandlers (this w))) (this w))) c))) k d
                = handlerAt (dirHandlers (this w)) k d).
  { intros ws c. simpl. split.
    - rewrite handlerAt_withHandler. by rewrite bool_decide_eq_true_2.
    - intros d k Hne. rewrite handlerAt_withHandler. by rewrite bool_decide_eq_false_2. }
  cbn [this chokidar set_dirHandlers watchers].
  destruct (watchers (this w) !! directory) as [id|] eqn:Hw.
  - destruct (Hat (watchers (this w)) (chokidar w)) as [H1 H2]. simpl in H1, H2.
    simpl. rewrite Hw.
    cbn [this set_dirHandlers watchers] in Hwf. rewrite Hw in Hwf. simpl in Hwf.
    split; [done|]. split; [done|]. split; [exact H1|]. split; [exact H2|].
    split; [done|]. split; [done|]. split; [done|].
    split_and!; try done.
    intros Hw0. destruct (Hwf Hw0) as (Ha & i & Hb & Hc).
    split; [exact Ha|]. exists i. rewrite ?lookup_insert_eq in Hb. split; [congruence | exact Hc].
  - cbv zeta.
    destruct (Hat (<[directory := nextWatcher (chokidar w)]> (watchers (this w)))
                (chokidar w)) as [H1 H2]. simpl in H1, H2.
    simpl. rewrite lookup_insert_eq.
    cbn [this set_dirHandlers watchers] in Hwf. rewrite Hw in Hwf. simpl in Hwf.
    split; [done|]. split; [done|]. split; [exact H1|]. split; [exact H2|].
    split; [done|]. split; [done|]. split; [by intros [? [=]]|].
    split_and!; try done.
    intros Hw0. destruct (Hwf Hw0) as (Ha & i & Hb & Hc).
    split; [exact Ha|]. exists i. rewrite ?lookup_insert_eq in Hb. split; [congruence | exact Hc].
Qed.

(** A handler set on [./test] before any [startWatching]: it is stored
    under [./test], and chokidar has a subscription open on [./test]. *)
Lemma setHandler_stores_under_the_given_directory_witness :
  let w := newWorld 1 "/home/u" None in
  let r := setHandler "./test" Change handlerA w in
  watchers (this w) !! "./test" = None
  /\ handlerAt (dirHandlers (this (world r))) Change "./test" = Some handlerA
  /\ watchers (this (world r)) = <[ "./test" := 0 ]> (watchers (this w))
  /\ live (chokidar (world r)) = <[ 0 := "./test" ]> (live (chokidar w)).
Proof.
  intros w r.
  assert (Hnone : watchers (this w) !! "./test" = None) by reflexivity.
  destruct (setHandler_stores_under_the_given_directory w "./test" Change handlerA)
    as (_ & _ & Hstored & _ & _ & Hnew & _).
  destruct (Hnew Hnone) as (Hw & Hl & _).
  split; [exact Hnone|]. split; [exact Hstored|]. split; [exact Hw | exact Hl].
Defined.

(** C4 as the specification words it fails: the absolute form of
    [./test] is [/home/u/test], and neither the handler table nor the
    registry has an entry for it after [setHandler('./test', ...)]. *)
Lemma setHandler_does_not_resolve_the_directory :
  let w := newWorld 1 "/home/u" None in
  let r := setHandler "./test" Change handlerA w in
  Path.resolve (baseDir (this w)) [baseDir (this w); "./test"] = "/home/u/test"
  /\ Path.isAbsolute "./test" = false
  /\ dirHandlers (this (world r)) !! "/home/u/test" = None
  /\ handlerAt (dirHandlers (this (world r))) Change "/home/u/test" = None
  /\ watchers (this (world r)) !! "/home/u/test" = None
  /\ handlerAt (dirHandlers (this (world r))) Change "./test" = Some handlerA.
Proof.
  cbv zeta. repeat split; reflexivity.
Qed.

(** ** The initial file set *)

Lemma grows_refl w : grows w w.
Proof. unfold grows. set_solver. Qed.

Lemma grows_trans a b c : grows a b -> grows b c -> grows a c.
Proof. unfold grows. set_solver. Qed.

Lemma sameField_refl {X} (f : FileWatcher -> X) w : sameField f w w.
Proof. done. Qed.

Lemma sameField_trans {X} (f : FileWatcher -> X) a b c :
  sameField f a b -> sameField f b c -> sameField f a c.
Proof. unfold sameField. congruence. Qed.

Lemma keeps_modifyThis (R : World -> World -> Prop) g :
  (forall w, R w (mkWorld (g (this w)) (chokidar w))) -> keeps R (modifyThis g).
Proof. intros H w. apply H. Qed.

Lemma keeps_chokidar_watch (R : World -> World -> Prop) directory :
  (forall w c, R w (mkWorld (this w) c)) -> keeps R (chokidar_watch directory).
Proof. intros H w. apply H. Qed.

Lemma keeps_watcher_close (R : World -> World -> Prop) id :
  (forall w c, R w (mkWorld (this w) c)) -> keeps R (watcher_close id).
Proof. intros H w. apply H. Qed.

Lemma captureEntries_mono entries :
  forall directory files, files ⊆ captureEntries directory entries files.
Proof.
  induction entries as [|below IHbelow| |file child IHchild rest IHrest]
    using Entries_mut
    with (P := fun n => match n with
                        | File => True
                        | Dir below =>
                            forall directory files,
                              files ⊆ captureEntries directory below files
                        end); try done.
  intros directory files. simpl.
  etrans; [|apply IHrest].
  destruct child as [|below]; [set_solver | apply IHchild].
Qed.

Lemma captureEntries_complete directory entries p :
  FileAt directory entries p ->
  forall files, p ∈ captureEntries directory entries files.
Proof.
  induction 1 as [directory file rest | directory file below rest p _ IH
                 | directory file child rest p _ IH]; intros files; simpl.
  - apply (captureEntries_mono rest). set_solver.
  - apply (captureEntries_mono rest). apply IH.
  - apply IH.
Qed.

(** Every path the scan adds is the path of a regular file of the tree. *)
Lemma captureEntries_sound entries :
  forall directory files p,
    p ∈ captureEntries directory entries files ->
    p ∈ files \/ FileAt directory entries p.
Proof.
  induction entries as [|below IHbelow| |file child IHchild rest IHrest]
    using Entries_mut
    with (P := fun n => match n with
                        | File => True
                        | Dir below =>
                            forall directory files p,
                              p ∈ captureEntries directory below files ->
                              p ∈ files \/ FileAt directory below p
                        end); try done.
  - intros directory files p Hp. by left.
  - intros directory files p Hp. simpl in Hp.
    apply IHrest in Hp as [Hp|Hp]; [|right; by apply FileAt_later].
    destruct child as [|below].
    + apply elem_of_union in Hp as [Hp|Hp]; [|by left].
      apply elem_of_singleton in Hp as ->. right. apply FileAt_here.
    + apply IHchild in Hp as [Hp|Hp]; [by left|]. right. by apply FileAt_below.
Qed.

Lemma captureInitialFiles_grows fs directory : keeps grows (captureInitialFiles fs directory).
Proof.
  unfold captureInitialFiles. destruct (fs !! directory) as [[|entries]|].
  - apply (keeps_throw grows grows_refl).
  - apply keeps_modifyThis. intros w. unfold grows. simpl.
    apply captureEntries_mono.
  - apply (keeps_throw grows grows_refl).
Qed.

Lemma watchDirectory_sameField {X} (f : FileWatcher -> X) directory :
  (forall v fw, f (set_watchers v fw) = f fw) ->
  keeps (sameField f) (watchDirectory directory).
Proof.
  intros Hf w. rewrite watchDirectory_eq.
  destruct (watchers (this w) !! directory); [done|]. apply Hf.
Qed.

Lemma captureInitialFiles_sameField {X} (f : FileWatcher -> X) fs directory :
  (forall v fw, f (set_initialFiles v fw) = f fw) ->
  keeps (sameField f) (captureInitialFiles fs directory).
Proof.
  intros Hf w. unfold captureInitialFiles.
  destruct (fs !! directory) as [[|entries]|]; [done| |done]. apply Hf.
Qed.

(** [startWatching] touches the initial files, the registry and chokidar,
    and nothing else. *)
Lemma startWatching_sameField {X} (f : FileWatcher -> X) fs :
  (forall v fw, f (set_watchers v fw) = f fw) ->
  (forall v fw, f (set_initialFiles v fw) = f fw) ->
  keeps (sameField f) (startWatching fs).
Proof.
  intros Hw Hi. unfold startWatching.
  apply (keeps_bind _ (sameField_trans f)); [done|]. intros fw.
  apply (keeps_bind _ (sameField_trans f)).
  - apply (keeps_forOf _ (sameField_refl f) (sameField_trans f)).
    intros d. by apply captureInitialFiles_sameField.
  - intros _. apply (keeps_forOf _ (sameField_refl f) (sameField_trans f)).
    intros d. by apply watchDirectory_sameField.
Qed.

Lemma stopWatching_sameField {X} (f : FileWatcher -> X) :
  (forall v fw, f (set_watchers v fw) = f fw) ->
  keeps (sameField f) stopWatching.
Proof. intros Hf w. rewrite stopWatching_eq. apply Hf. Qed.

Lemma sameField_grows a b : sameField initialFiles a b -> grows a b.
Proof. unfold sameField, grows. intros ->. done. Qed.

Lemma startWatching_grows fs : keeps grows (startWatching fs).
Proof.
  unfold startWatching.
  apply (keeps_bind _ grows_trans); [apply (keeps_getThis _ grows_refl)|]. intros fw.
  apply (keeps_bind _ grows_trans).
  - apply (keeps_forOf _ grows_refl grows_trans). apply captureInitialFiles_grows.
  - intros _. apply (keeps_forOf _ grows_refl grows_trans).
    intros d w. apply sameField_grows. by apply watchDirectory_sameField.
Qed.

(** No operation, and no notification, takes a path out of the set. *)
Lemma runOp_grows rt op : keeps grows (runOp rt op).
Proof.
  destruct op as [fs| |d k cb|fs ds|ds|es|ds|id k p|id k p]; simpl.
  - apply startWatching_grows.
  - intros w. apply sameField_grows. by apply stopWatching_sameField.
  - intros w. unfold grows.
    by destruct (setHandler_stores_handler_frame w d k cb) as [-> _].
  - unfold ignoreDirectory. apply (keeps_forOf _ grows_refl grows_trans).
    intros dir. destruct (negb _); [apply (keeps_tell _ grows_refl)|].
    apply keeps_modifyThis. intros w. unfold grows. done.
  - unfold unignoreDirectory. apply (keeps_forOf _ grows_refl grows_trans).
    intros dir. apply (keeps_bind _ grows_trans); [apply (keeps_getThis _ grows_refl)|].
    intros fw. destruct (bool_decide _); [|apply (keeps_tell _ grows_refl)].
    apply keeps_modifyThis. intros w. unfold grows. done.
  - intros w. unfold grows. done.
  - intros w. unfold grows. done.
  - intros w. rewrite notify_world. apply grows_refl.
  - intros w. rewrite deliver_world. apply grows_refl.
Qed.

Lemma runOps_grows rt ops : forall w, grows w (runOps rt ops w).
Proof.
  induction ops as [|op ops IH]; intros w; simpl; [apply grows_refl|].
  eapply grows_trans; [apply runOp_grows | apply IH].
Qed.

(** The scan loop of [startWatching] on directories that are all there. *)
Lemma forOf_capture fs dirs :
  forall w,
    (forall d, d ∈ dirs -> exists entries, fs !! d = Some (Dir entries)) ->
    completion (forOf dirs (captureInitialFiles fs) w) = Normal tt
    /\ trace (forOf dirs (captureInitialFiles fs) w) = []
    /\ (forall d entries p,
          d ∈ dirs -> fs !! d = Some (Dir entries) -> FileAt d entries p ->
          p ∈ initialFiles (this (world (forOf dirs (captureInitialFiles fs) w)))).
Proof.
  induction dirs as [|d dirs IH]; intros w Hdirs.
  - split; [done|]. split; [done|]. intros d entries p Hd. by apply elem_of_nil in Hd.
  - destruct (Hdirs d) as [entries Hd]; [by left|].
    change (forOf (d :: dirs) (captureInitialFiles fs))
      with (bind (captureInitialFiles fs d)
              (fun _ => forOf dirs (captureInitialFiles fs))).
    set (w1 := mkWorld (set_initialFiles
                          (captureEntries d entries (initialFiles (this w))) (this w))
                 (chokidar w)).
    rewrite (bind_pure _ _ w tt w1) by (unfold captureInitialFiles; by rewrite Hd).
    destruct (IH w1) as (Hc & Ht & Hfiles); [intros d' Hd'; apply Hdirs; by right|].
    split; [exact Hc|]. split; [exact Ht|].
    intros d' entries' p Hd' Hfs Hp.
    apply elem_of_cons in Hd' as [->|Hd']; [|by eapply Hfiles].
    rewrite Hd in Hfs. injection Hfs as <-.
    apply (keeps_forOf grows grows_refl grows_trans dirs _
             (captureInitialFiles_grows fs) w1).
    simpl. by apply captureEntries_complete.
Qed.

Lemma forOf_watchDirectory dirs :
  forall w,
    completion (forOf dirs watchDirectory w) = Normal tt
    /\ trace (forOf dirs watchDirectory w) = [].
Proof.
  induction dirs as [|d dirs IH]; intros w; [done|].
  change (forOf (d :: dirs) watchDirectory)
    with (bind (watchDirectory d) (fun _ => forOf dirs watchDirectory)).
  pose proof (watchDirectory_eq d w) as Hw.
  destruct (watchers (this w) !! d); cbv zeta in Hw;
    rewrite (bind_pure _ _ _ _ _ Hw); apply IH.
Qed.

(** [startWatching] on a file system in which every directory it works on
    is a directory: it returns, and every regular file of the trees is an
    initial file afterwards. *)
Lemma startWatching_complete fs w :
  (forall d, d ∈ effectiveDirectories (this w) ->
     exists entries, fs !! d = Some (Dir entries)) ->
  completion (startWatching fs w) = Normal tt
  /\ trace (startWatching fs w) = []
  /\ (forall d entries p,
        d ∈ effectiveDirectories (this w) ->
        fs !! d = Some (Dir entries) -> FileAt d entries p ->
        p ∈ initialFiles (this (world (startWatching fs w)))).
Proof.
  intros Hdirs. unfold startWatching.
  rewrite (bind_pure getThis _ w (this w) w) by reflexivity.
  fold (effectiveDirectories (this w)).
  set (dirs := effectiveDirectories (this w)) in *.
  destruct (forOf_capture fs dirs w Hdirs) as (Hc & Ht & Hfiles).
  set (r1 := forOf dirs (captureInitialFiles fs) w) in *.
  rewrite (bind_pure _ _ w tt (world r1))
    by (by apply result_pure).
  destruct (forOf_watchDirectory dirs (world r1)) as [Hc2 Ht2].
  split; [exact Hc2|]. split; [exact Ht2|].
  intros d entries p Hd Hfs Hp.
  pose proof (keeps_forOf (sameField initialFiles) (sameField_refl _) (sameField_trans _)
                dirs watchDirectory
                (fun d => watchDirectory_sameField initialFiles d
                            (fun _ _ => eq_refl)) (world r1)) as Hsame.
  unfold sameField in Hsame. rewrite Hsame. by eapply Hfiles.
Qed.

Lemma effectiveDirectories_same a b :
  sameField monitoredDirectories a b -> sameField baseDir a b ->
  effectiveDirectories (this b) = effectiveDirectories (this a).
Proof. unfold sameField, effectiveDirectories. by intros -> ->. Qed.

(** C10.  The initial file set only grows: whatever operations are called
    and whatever notifications arrive, in any order, every path of the set
    stays in it.  [stopWatching] leaves the set as it is and
    [startWatching] adds to it.  So after a start, a stop and a second
    start on a file system in which the watched directories are there,
    the second start returns, and every initial file of the first session
    and every regular file below a watched directory at the second start
    is an initial file; an "add" notification for such a path leaves no
    trace, then and after any further operations. *)
Theorem initialFiles_only_grows (rt : string -> string -> option string) :
  (forall ops w, initialFiles (this w) ⊆ initialFiles (this (runOps rt ops w)))
  /\ (forall w, initialFiles (this (world (stopWatching w))) = initialFiles (this w))
  /\ (forall fs w,
        initialFiles (this w) ⊆ initialFiles (this (world (startWatching fs w))))
  /\ (forall fs1 fs2 w,
        let w1 := world (startWatching fs1 w) in
        let w2 := world (stopWatching w1) in
        let r := startWatching fs2 w2 in
        (forall d, d ∈ effectiveDirectories (this w) ->
           exists entries, fs2 !! d = Some (Dir entries)) ->
        completion r = Normal tt
        /\ forall p,
             (p ∈ initialFiles (this w1)
              \/ exists d entries,
                   d ∈ effectiveDirectories (this w)
                   /\ fs2 !! d = Some (Dir entries) /\ FileAt d entries p) ->
             p ∈ initialFiles (this (world r))
             /\ forall ops directory,
                  trace (handleEvent rt Add directory p (runOps rt ops (world r))) = []).
Proof.
  split; [intros ops w; apply runOps_grows|].
  split; [intros w; by apply stopWatching_sameField|].
  split; [intros fs w; apply startWatching_grows|].
  intros fs1 fs2 w w1 w2 r Hdirs.
  assert (Heff : effectiveDirectories (this w2) = effectiveDirectories (this w)).
  { transitivity (effectiveDirectories (this w1)).
    - apply effectiveDirectories_same; by apply stopWatching_sameField.
    - apply effectiveDirectories_same; by apply startWatching_sameField. }
  destruct (startWatching_complete fs2 w2) as (Hc & _ & Hfiles);
    [by rewrite Heff|].
  split; [exact Hc|]. intros p Hp.
  assert (Hin : p ∈ initialFiles (this (world r))).
  { destruct Hp as [Hp|(d & entries & Hd & Hfs & Hp)].
    - apply (startWatching_grows fs2 w2).
      assert (Hstop : initialFiles (this w2) = initialFiles (this w1))
        by (by apply stopWatching_sameField).
      by rewrite Hstop.
    - eapply Hfiles; [by rewrite Heff | done | done]. }
  split; [exact Hin|]. intros ops directory.
  apply initial_add_dropped. by apply (runOps_grows rt ops (world r)).
Qed.

(** A session: [old.txt] is there at the first start, [new.txt] is created
    while watching, and watching is stopped and started again. *)
Lemma initialFiles_only_grows_witness :
  let w := newWorld 1 "/base" None in
  let w1 := world (startWatching snapshotFS w) in
  let w2 := world (stopWatching w1) in
  let r := startWatching laterFS w2 in
  ("/base/new.txt" ∉ initialFiles (this w1))
  /\ completion r = Normal tt
  /\ "/base/new.txt" ∈ initialFiles (this (world r))
  /\ trace (handleEvent Regex.replaceTail Add "/base" "/base/new.txt" (world r)) = [].
Proof.
  intros w w1 w2 r.
  split; [vm_compute; set_solver|].
  destruct (initialFiles_only_grows Regex.replaceTail) as (_ & _ & _ & Hcycle).
  destruct (Hcycle snapshotFS laterFS w) as [Hc Hfiles].
  { intros d Hd. apply list_elem_of_singleton in Hd as ->.
    eexists. reflexivity. }
  split; [exact Hc|].
  destruct (Hfiles "/base/new.txt") as [Hin Hadd].
  { right. exists "/base", (Entry "old.txt" File (Entry "new.txt" File NoEntry)).
    split; [by apply list_elem_of_singleton|]. split; [reflexivity|].
    apply FileAt_later. apply (FileAt_here "/base" "new.txt" NoEntry). }
  split; [exact Hin | exact (Hadd [] "/base")].
Defined.

(** * Further properties of the engine *)

(** ** [watchDirectory], [setHandler] and [findHandler] together *)

Lemma findHandler_firstHandler fw directory eventType :
  findHandler fw directory eventType
  = firstHandler (dirHandlers fw) eventType (ancestors directory).
Proof.
  unfold findHandler.
  by rewrite (findHandlerLoop_enough _ _ _ _ (enoughFuel_start directory)).
Qed.

Lemma ancestors_not_own_parent directory x :
  x ∈ ancestors directory -> Path.dirname x <> x.
Proof.
  intros Hx. apply list_elem_of_lookup in Hx as [i Hi].
  destruct (ancestorWalk_chain _ _ (enoughFuel_start directory)) as [Hchain _].
  by destruct (Hchain i x Hi).
Qed.

Lemma ancestors_head directory :
  Path.dirname directory <> directory ->
  exists rest, ancestors directory = directory :: rest.
Proof.
  intros Hne. unfold ancestors, findHandlerFuel.
  replace (String.length directory + 2) with (S (String.length directory + 1)) by lia.
  cbn [ancestorWalk].
  assert (H : String.eqb directory (Path.dirname directory) = false)
    by (apply String.eqb_neq; congruence).
  rewrite H. eauto.
Qed.

Lemma firstHandler_ext h1 h2 eventType dirs :
  (forall x, x ∈ dirs -> handlerAt h1 eventType x = handlerAt h2 eventType x) ->
  firstHandler h1 eventType dirs = firstHandler h2 eventType dirs.
Proof.
  induction dirs as [|d dirs IH]; intros Heq; simpl; [done|].
  rewrite (Heq d) by (by left).
  destruct (handlerAt h2 eventType d); [done|].
  apply IH. intros x Hx. apply Heq. by right.
Qed.

Lemma setHandler_dirHandlers w directory eventType callback :
  dirHandlers (this (world (setHandler directory eventType callback w)))
  = withHandler directory eventType callback (dirHandlers (this w)).
Proof.
  rewrite setHandler_eq, watchDirectory_eq. cbn [this set_dirHandlers watchers].
  by destruct (watchers (this w) !! directory).
Qed.

Lemma findHandler_after_setHandler w directory eventType callback :
  Path.dirname directory <> directory ->
  findHandler (this (world (setHandler directory eventType callback w)))
    directory eventType = Some callback.
Proof.
  intros Hne. rewrite findHandler_firstHandler, setHandler_dirHandlers.
  destruct (ancestors_head directory Hne) as [rest ->]. simpl.
  rewrite handlerAt_withHandler. by rewrite bool_decide_eq_true_2.
Qed.

(** X1.  [watchDirectory] is idempotent: on a directory that has a
    subscription it does nothing at all, and calling it a second time
    leaves the world of the first call, so a directory never gets a
    second subscription and chokidar is asked at most once. *)
Theorem watchDirectory_idempotent (w : World) (directory : string) :
  (is_Some (watchers (this w) !! directory) ->
     watchDirectory directory w = mkResult w [] (Normal tt))
  /\ watchDirectory directory (world (watchDirectory directory w))
     = mkResult (world (watchDirectory directory w)) [] (Normal tt)
  /\ nextWatcher (chokidar (world (watchDirectory directory w)))
     <= S (nextWatcher (chokidar w)).
Proof.
  split_and!.
  - intros [id Hid]. by rewrite watchDirectory_eq, Hid.
  - rewrite (watchDirectory_eq directory w).
    destruct (watchers (this w) !! directory) as [id|] eqn:Hw; cbv zeta; cbn [world].
    + by rewrite watchDirectory_eq, Hw.
    + rewrite watchDirectory_eq. cbn [this watchers set_watchers].
      by rewrite lookup_insert_eq.
  - rewrite watchDirectory_eq.
    destruct (watchers (this w) !! directory); simpl; lia.
Qed.

Lemma watchDirectory_idempotent_witness :
  is_Some (watchers (this twoHandlers) !! "/a")
  /\ watchDirectory "/a" twoHandlers = mkResult twoHandlers [] (Normal tt).
Proof.
  assert (H : is_Some (watchers (this twoHandlers) !! "/a")) by (by exists 0).
  split; [exact H|].
  by apply (watchDirectory_idempotent twoHandlers "/a").
Defined.

(** X2.  A handler set on a directory that is its own parent ([/] or [.])
    is never found: [findHandler] stops before it examines such a
    directory, so after the [setHandler] every lookup answers what it
    answered before. *)
Theorem setHandler_on_root_is_never_found
  (w : World) (root : string) (eventType : EventKind) (callback : Callback)
  (directory : string) (k : EventKind) :
  Path.dirname root = root ->
  findHandler (this (world (setHandler root eventType callback w))) directory k
  = findHandler (this w) directory k.
Proof.
  intros Hroot. rewrite !findHandler_firstHandler, setHandler_dirHandlers.
  apply firstHandler_ext. intros x Hx. rewrite handlerAt_withHandler.
  rewrite bool_decide_eq_false_2; [done|].
  intros [-> _]. by apply ancestors_not_own_parent in Hx.
Qed.

Lemma setHandler_on_root_is_never_found_witness :
  Path.dirname "/" = "/"
  /\ handlerAt (dirHandlers (this (world (setHandler "/" Change handlerA
                                            (newWorld 1 "/base" None)))))
       Change "/" = Some handlerA
  /\ findHandler (this (world (setHandler "/" Change handlerA (newWorld 1 "/base" None))))
       "/" Change = None
  /\ findHandler (this (world (setHandler "/" Change handlerA (newWorld 1 "/base" None))))
       "/base/src" Change = None.
Proof.
  assert (H : Path.dirname "/" = "/") by reflexivity.
  split; [exact H|]. split; [reflexivity|]. split.
  - rewrite (setHandler_on_root_is_never_found _ "/" Change handlerA "/" Change H).
    reflexivity.
  - rewrite (setHandler_on_root_is_never_found _ "/" Change handlerA "/base/src" Change H).
    reflexivity.
Defined.

(** X3.  What [setHandler] stores, [findHandler] finds: after
    [setHandler(directory, eventType, callback)] on a directory that is
    not its own parent, the lookup for that directory and kind answers
    [callback]; lookups for another kind answer what they answered
    before, from any directory. *)
Theorem setHandler_then_findHandler
  (w : World) (directory : string) (eventType : EventKind) (callback : Callback) :
  (Path.dirname directory <> directory ->
     findHandler (this (world (setHandler directory eventType callback w)))
       directory eventType = Some callback)
  /\ (forall from k, k <> eventType ->
        findHandler (this (world (setHandler directory eventType callback w))) from k
        = findHandler (this w) from k).
Proof.
  split; [apply findHandler_after_setHandler|].
  intros from k Hk. rewrite !findHandler_firstHandler, setHandler_dirHandlers.
  apply firstHandler_ext. intros x _. rewrite handlerAt_withHandler.
  rewrite bool_decide_eq_false_2; [done | tauto].
Qed.

Lemma setHandler_then_findHandler_witness :
  Path.dirname "./test" <> "./test"
  /\ findHandler (this (world (setHandler "./test" Unlink handlerB
                                 (newWorld 1 "/home/u" None))))
       "./test" Unlink = Some handlerB.
Proof.
  assert (H : Path.dirname "./test" <> "./test") by discriminate.
  split; [exact H|].
  by apply (setHandler_then_findHandler (newWorld 1 "/home/u" None) "./test" Unlink handlerB).
Defined.

Lemma withHandler_twice directory eventType c1 c2 handlersOf :
  withHandler directory eventType c2 (withHandler directory eventType c1 handlersOf)
  = withHandler directory eventType c2 handlersOf.
Proof.
  unfold withHandler. rewrite lookup_insert_eq. simpl.
  by rewrite !insert_insert_eq.
Qed.

(** X4.  Registering twice for the same directory and kind is registering
    the second callback once: the two calls leave the world that the
    second call alone leaves, one subscription included. *)
Theorem setHandler_twice_is_the_second
  (w : World) (directory : string) (eventType : EventKind) (c1 c2 : Callback) :
  world (setHandler directory eventType c2 (world (setHandler directory eventType c1 w)))
  = world (setHandler directory eventType c2 w).
Proof.
  rewrite (setHandler_eq directory eventType c1 w), watchDirectory_eq.
  cbn [this set_dirHandlers watchers].
  destruct (watchers (this w) !! directory) as [id|] eqn:Hw; cbv zeta; cbn [world].
  - rewrite !setHandler_eq, !watchDirectory_eq.
    cbn [this chokidar set_dirHandlers watchers dirHandlers]. rewrite Hw.
    cbn [world]. by rewrite withHandler_twice.
  - rewrite !setHandler_eq, !watchDirectory_eq.
    cbn [this chokidar set_dirHandlers set_watchers watchers dirHandlers].
    rewrite lookup_insert_eq, Hw. cbv zeta. cbn [world].
    rewrite withHandler_twice. reflexivity.
Qed.

(** ** Notifications *)

Lemma notify_eq rt id eventType filePath w :
  notify rt id eventType filePath w
  = match live (chokidar w) !! id with
    | None => mkResult w [] (Normal tt)
    | Some directory =>
        if bool_decide (ignoredDirectories (this w) = ∅)
        then handleEvent rt eventType directory filePath w
        else mkResult w [] (Normal tt)
    end.
Proof.
  unfold notify. destruct (live (chokidar w) !! id); [|done].
  rewrite ignored_eq. by destruct (bool_decide _).
Qed.

(** X5.  From registration to call.  In a world where the registry and
    chokidar agree and nothing is ignored, after
    [setHandler(directory, eventType, callback)] on a directory that is not
    its own parent, a notification of that kind from the subscription of
    that directory, for a file that passes the filters, emits the event
    once and calls [callback] once, with the directory as it was
    registered; the call ends as the callback does. *)
Theorem setHandler_then_notify_calls_the_handler
  (rt : string -> string -> option string) (w : World)
  (directory : string) (eventType : EventKind) (callback : Callback)
  (filePath rel : string) :
  wellFormed w ->
  Path.dirname directory <> directory ->
  ignoredDirectories (this w) = ∅ ->
  rt (Path.basename filePath) (relativeOf (this w) filePath) = Some rel ->
  extensionPasses (this w) filePath ->
  ~ (filePath ∈ initialFiles (this w) /\ eventType = Add) ->
  let w' := world (setHandler directory eventType callback w) in
  let relativePath := (baseDir (this w) ++ "/" ++ rel)%string in
  exists id,
    watchers (this w') !! directory = Some id
    /\ notify rt id eventType filePath w'
       = mkResult w'
           [Emit eventType directory (Path.basename filePath) relativePath;
            Call callback directory (Path.basename filePath) relativePath eventType]
           (match cb_run callback directory (Path.basename filePath) relativePath
                    eventType with
            | Some e => Throw e
            | None => Normal tt
            end).
Proof.
  intros Hwf Hne Hign Hrel Hpass Hinit w' relativePath.
  pose proof (setHandler_wellFormed directory eventType callback w Hwf) as [Hreg _].
  fold w' in Hreg.
  destruct (setHandler_stores_handler_frame w directory eventType callback)
    as (Hfiles & Hignored & Hallowed & _ & Hbase).
  fold w' in Hfiles, Hignored, Hallowed, Hbase.
  assert (Hsome : is_Some (watchers (this w') !! directory)).
  { unfold w'. rewrite setHandler_eq, watchDirectory_eq.
    cbn [this set_dirHandlers watchers].
    destruct (watchers (this w) !! directory) as [id|] eqn:Hw; simpl.
    - by rewrite Hw.
    - by rewrite lookup_insert_eq. }
  destruct Hsome as [id Hid]. exists id. split; [exact Hid|].
  rewrite notify_eq. apply Hreg in Hid. rewrite Hid.
  rewrite Hignored, Hign, bool_decide_eq_true_2 by done.
  rewrite handleEvent_eq. cbv zeta.
  unfold relativeOf, extensionOf in *. rewrite Hbase, Hallowed, Hfiles, Hrel.
  apply extension_gate in Hpass. unfold extensionOf in Hpass. rewrite Hpass.
  replace (bool_decide (filePath ∈ initialFiles (this w)) && bool_decide (eventType = Add))
    with false.
  - unfold w'. by rewrite findHandler_after_setHandler.
  - symmetry. apply andb_false_iff.
    destruct (decide (filePath ∈ initialFiles (this w))) as [Hin|Hin].
    + right. apply bool_decide_eq_false_2. tauto.
    + left. by apply bool_decide_eq_false_2.
Qed.

Lemma setHandler_then_notify_calls_the_handler_witness :
  let w := newWorld 1 "/base" None in
  let w' := world (setHandler "/base/src" Unlink handlerB w) in
  exists id,
    watchers (this w') !! "/base/src" = Some id
    /\ notify Regex.replaceTail id Unlink "/base/src/lib/x.js" w'
       = mkResult w'
           [Emit Unlink "/base/src" "x.js" "/base/src/lib";
            Call handlerB "/base/src" "x.js" "/base/src/lib" Unlink]
           (Normal tt).
Proof.
  intros w w'.
  apply (setHandler_then_notify_calls_the_handler Regex.replaceTail w
           "/base/src" Unlink handlerB "/base/src/lib/x.js" "src/lib").
  - apply wellFormed_new.
  - discriminate.
  - reflexivity.
  - reflexivity.
  - left. reflexivity.
  - intros [_ [=]].
Defined.

Lemma deliver_eq rt id eventType filePath w :
  deliver rt id eventType filePath w
  = match live (chokidar w) !! id with
    | None => mkResult w [] (Normal tt)
    | Some directory => handleEvent rt eventType directory filePath w
    end.
Proof. unfold deliver. by destruct (live (chokidar w) !! id). Qed.

(** X7.  After [stopWatching], in a world where the registry and chokidar
    agree (every world a session reaches), no notification is delivered
    any more: whatever subscription, kind and path, for a path chokidar
    meets as for one it watched, nothing is emitted and no handler is
    called. *)
Theorem notify_is_silent_after_stopWatching
  (rt : string -> string -> option string) (w : World)
  (id : nat) (eventType : EventKind) (filePath : string) :
  wellFormed w ->
  notify rt id eventType filePath (world (stopWatching w))
    = mkResult (world (stopWatching w)) [] (Normal tt)
  /\ deliver rt id eventType filePath (world (stopWatching w))
     = mkResult (world (stopWatching w)) [] (Normal tt).
Proof.
  intros Hwf. rewrite notify_eq, deliver_eq, (stopWatching_live w Hwf).
  by rewrite lookup_empty.
Qed.

Lemma notify_is_silent_after_stopWatching_witness :
  wellFormed twoHandlers
  /\ trace (notify Regex.replaceTail 1 Change "/a/b/x.js" twoHandlers)
     = [Emit Change "/a/b" "x.js" "/base/../a/b";
        Call handlerB "/a/b" "x.js" "/base/../a/b" Change]
  /\ notify Regex.replaceTail 1 Change "/a/b/x.js" (world (stopWatching twoHandlers))
     = mkResult (world (stopWatching twoHandlers)) [] (Normal tt)
  /\ deliver Regex.replaceTail 1 Change "/a/b/x.js" (world (stopWatching twoHandlers))
     = mkResult (world (stopWatching twoHandlers)) [] (Normal tt).
Proof.
  assert (Hwf : wellFormed twoHandlers).
  { exact (runOps_wellFormed Regex.replaceTail
             [OpSetHandler "/a" Change handlerA; OpSetHandler "/a/b" Change handlerB]
             _ (wellFormed_new 1 "/base" None)). }
  split; [exact Hwf|]. split; [reflexivity|].
  exact (notify_is_silent_after_stopWatching Regex.replaceTail twoHandlers 1 Change
           "/a/b/x.js" Hwf).
Defined.

(** ** [ignoreDirectory] and [unignoreDirectory] on any argument list *)

Lemma set_ignoredDirectories_same fw :
  set_ignoredDirectories (ignoredDirectories fw) fw = fw.
Proof. by destruct fw. Qed.

Lemma withIgnored_same w : withIgnored (ignoredDirectories (this w)) w = w.
Proof. unfold withIgnored. rewrite set_ignoredDirectories_same. by destruct w. Qed.

Lemma ignoreDirectory_eq fs dirs :
  forall w,
    ignoreDirectory fs dirs w
    = mkResult
        (withIgnored (ignoredDirectories (this w)
                      ∪ list_to_set (List.filter (existsSync fs) dirs)) w)
        (map warnMissing (List.filter (fun d => negb (existsSync fs d)) dirs))
        (Normal tt).
Proof.
  unfold ignoreDirectory.
  induction dirs as [|d dirs IH]; intros w.
  - simpl. rewrite union_empty_r_L, withIgnored_same. reflexivity.
  - change (forOf (d :: dirs) ?body) with (bind (body d) (fun _ => forOf dirs body)).
    cbn [List.filter]. destruct (existsSync fs d) eqn:Hd; cbn [negb].
    + erewrite bind_pure by reflexivity. rewrite IH.
      unfold withIgnored. cbn [this chokidar set_ignoredDirectories ignoredDirectories].
      rewrite list_to_set_cons.
      replace (ignoredDirectories (this w)
               ∪ ({[d]} ∪ list_to_set (List.filter (existsSync fs) dirs)))
        with ({[d]} ∪ ignoredDirectories (this w)
              ∪ list_to_set (List.filter (existsSync fs) dirs)) by set_solver.
      reflexivity.
    + unfold bind. cbn [tell completion world trace]. rewrite IH. reflexivity.
Qed.

(** X8.  [ignoreDirectory] on any argument list never throws; it adds to
    the ignore set exactly the arguments that exist, reports one warning
    for each argument that does not, in argument order, and touches
    nothing else; ignoring the same list again adds nothing. *)
Theorem ignoreDirectory_adds_the_existing_arguments
  (fs : FS) (dirs : list string) (w : World) :
  let r := ignoreDirectory fs dirs w in
  completion r = Normal tt
  /\ trace r = map warnMissing (List.filter (fun d => negb (existsSync fs d)) dirs)
  /\ (forall d, d ∈ ignoredDirectories (this (world r))
                <-> d ∈ ignoredDirectories (this w)
                    \/ (d ∈ dirs /\ existsSync fs d = true))
  /\ world r = withIgnored (ignoredDirectories (this (world r))) w
  /\ world (ignoreDirectory fs dirs (world r)) = world r.
Proof.
  cbv zeta. rewrite !ignoreDirectory_eq. cbn [completion trace world].
  split_and!; try done.
  - intros d. unfold withIgnored. cbn [this set_ignoredDirectories ignoredDirectories].
    rewrite elem_of_union, elem_of_list_to_set, list_elem_of_In, filter_In.
    by rewrite <- list_elem_of_In.
  - unfold withIgnored. cbn [this chokidar set_ignoredDirectories ignoredDirectories].
    replace (ignoredDirectories (this w)
             ∪ list_to_set (List.filter (existsSync fs) dirs)
             ∪ list_to_set (List.filter (existsSync fs) dirs))
      with (ignoredDirectories (this w)
            ∪ list_to_set (List.filter (existsSync fs) dirs)) by set_solver.
    reflexivity.
Qed.

Lemma unignoreDirectory_facts dirs :
  forall w,
    let r := unignoreDirectory dirs w in
    completion r = Normal tt
    /\ world r = withIgnored (ignoredDirectories (this w) ∖ list_to_set dirs) w
    /\ (forall e, e ∈ trace r -> exists d, d ∈ dirs /\ e = warnNotIgnored d)
    /\ (forall d, d ∈ dirs -> d ∉ ignoredDirectories (this w) ->
          warnNotIgnored d ∈ trace r)
    /\ (NoDup dirs -> (forall d, d ∈ dirs -> d ∈ ignoredDirectories (this w)) ->
          trace r = []).
Proof.
  unfold unignoreDirectory.
  set (body := fun dir : string => _).
  induction dirs as [|d dirs IH]; intros w.
  - cbv zeta. simpl. split_and!; try done.
    + rewrite difference_empty_L. by rewrite withIgnored_same.
    + intros e He. by apply elem_of_nil in He.
    + intros d Hd. by apply elem_of_nil in Hd.
  - cbv zeta.
    change (forOf (d :: dirs) body) with (bind (body d) (fun _ => forOf dirs body)).
    destruct (decide (d ∈ ignoredDirectories (this w))) as [Hd|Hd].
    + set (w1 := withIgnored (ignoredDirectories (this w) ∖ {[d]}) w).
      assert (Hb : body d w = mkResult w1 [] (Normal tt)).
      { unfold body. rewrite (bind_pure getThis _ w (this w) w) by reflexivity.
        by rewrite (bool_decide_eq_true_2 _ Hd). }
      rewrite (bind_pure _ _ _ _ _ Hb).
      destruct (IH w1) as (Hc & Hw & Hall & Hwarn & Hnone).
      split_and!.
      * exact Hc.
      * rewrite Hw. unfold w1, withIgnored.
        cbn [this chokidar set_ignoredDirectories ignoredDirectories].
        rewrite list_to_set_cons.
        replace (ignoredDirectories (this w) ∖ ({[d]} ∪ list_to_set dirs))
          with (ignoredDirectories (this w) ∖ {[d]} ∖ list_to_set dirs) by set_solver.
        reflexivity.
      * intros e He. destruct (Hall e He) as (d' & Hd' & ->).
        exists d'. split; [by right | done].
      * intros d' Hd' Hout. apply elem_of_cons in Hd' as [->|Hd']; [done|].
        apply Hwarn; [done|]. unfold w1. simpl. set_solver.
      * intros Hnodup Hin. apply NoDup_cons in Hnodup as [Hfresh Hnodup].
        apply Hnone; [done|]. intros d' Hd'. unfold w1. simpl.
        apply elem_of_difference. split; [apply Hin; by right|].
        intros Heq. apply elem_of_singleton in Heq as ->. done.
    + assert (Hb : body d w = mkResult w [warnNotIgnored d] (Normal tt)).
      { unfold body. rewrite (bind_pure getThis _ w (this w) w) by reflexivity.
        by rewrite (bool_decide_eq_false_2 _ Hd). }
      destruct (IH w) as (Hc & Hw & Hall & Hwarn & Hnone).
      unfold bind. rewrite Hb. cbn [completion world trace].
      split_and!.
      * exact Hc.
      * rewrite Hw. unfold withIgnored. rewrite list_to_set_cons.
        replace (ignoredDirectories (this w) ∖ ({[d]} ∪ list_to_set dirs))
          with (ignoredDirectories (this w) ∖ list_to_set dirs) by set_solver.
        reflexivity.
      * intros e He. apply elem_of_cons in He as [->|He].
        -- exists d. split; [by left | done].
        -- destruct (Hall e He) as (d' & Hd' & ->). exists d'. split; [by right | done].
      * intros d' Hd' Hout. apply elem_of_cons in Hd' as [->|Hd']; [by left|].
        right. by apply Hwarn.
      * intros _ Hin. exfalso. apply Hd, Hin. by left.
Qed.

(** X9.  [unignoreDirectory] on any argument list never throws; it takes
    exactly its arguments out of the ignore set and touches nothing else;
    every warning it reports is for one of its arguments, every argument
    that was not ignored gets one, and arguments given once that were all
    ignored give none. *)
Theorem unignoreDirectory_removes_its_arguments (dirs : list string) (w : World) :
  let r := unignoreDirectory dirs w in
  completion r = Normal tt
  /\ (forall d, d ∈ ignoredDirectories (this (world r))
                <-> d ∈ ignoredDirectories (this w) /\ d ∉ dirs)
  /\ world r = withIgnored (ignoredDirectories (this (world r))) w
  /\ (forall e, e ∈ trace r -> exists d, d ∈ dirs /\ e = warnNotIgnored d)
  /\ (forall d, d ∈ dirs -> d ∉ ignoredDirectories (this w) ->
        warnNotIgnored d ∈ trace r)
  /\ (NoDup dirs -> (forall d, d ∈ dirs -> d ∈ ignoredDirectories (this w)) ->
        trace r = []).
Proof.
  destruct (unignoreDirectory_facts dirs w) as (Hc & Hw & Hall & Hwarn & Hnone).
  cbv zeta in *. split_and!; try done.
  - intros d. rewrite Hw. unfold withIgnored. simpl.
    by rewrite elem_of_difference, elem_of_list_to_set.
  - rewrite Hw at 1. rewrite Hw. unfold withIgnored. simpl. reflexivity.
Qed.

Lemma unignoreDirectory_removes_its_arguments_witness :
  let fs : FS := {[ "/base/a" := Dir NoEntry; "/base/b" := Dir NoEntry ]} in
  let w := world (ignoreDirectory fs ["/base/a"; "/base/b"] (newWorld 1 "/base" None)) in
  NoDup ["/base/b"; "/base/a"]
  /\ trace (unignoreDirectory ["/base/b"; "/base/a"] w) = []
  /\ warnNotIgnored "/base/c" ∈ trace (unignoreDirectory ["/base/c"] w).
Proof.
  intros fs w.
  assert (Hnodup : NoDup ["/base/b"; "/base/a"]).
  { apply NoDup_cons. split; [|apply NoDup_singleton].
    intros H. by apply list_elem_of_singleton in H. }
  destruct (unignoreDirectory_removes_its_arguments ["/base/b"; "/base/a"] w)
    as (_ & _ & _ & _ & _ & Hnone).
  destruct (unignoreDirectory_removes_its_arguments ["/base/c"] w)
    as (_ & _ & _ & _ & Hwarn & _).
  split; [exact Hnodup|]. split.
  - apply Hnone; [exact Hnodup|].
    intros d Hd. vm_compute. set_solver.
  - apply Hwarn; [by left|]. vm_compute. set_solver.
Defined.

(** X10.  Ignoring and unignoring undo each other: for existing
    directories, given once, that were not ignored before, [ignoreDirectory]
    followed by [unignoreDirectory] on the same list gives the world back,
    without a warning. *)
Theorem ignore_then_unignore_restores (fs : FS) (dirs : list string) (w : World) :
  NoDup dirs ->
  (forall d, d ∈ dirs -> existsSync fs d = true) ->
  (forall d, d ∈ dirs -> d ∉ ignoredDirectories (this w)) ->
  ignoreDirectory fs dirs w
    = mkResult (world (ignoreDirectory fs dirs w)) [] (Normal tt)
  /\ unignoreDirectory dirs (world (ignoreDirectory fs dirs w))
     = mkResult w [] (Normal tt).
Proof.
  intros Hnodup Hex Hout.
  assert (Hfilter : List.filter (existsSync fs) dirs = dirs).
  { clear Hnodup Hout. induction dirs as [|d dirs IH]; [done|]. simpl.
    rewrite (Hex d) by (by left). f_equal. apply IH. intros x Hx. apply Hex. by right. }
  assert (Hnone : List.filter (fun d => negb (existsSync fs d)) dirs = []).
  { clear Hnodup Hout Hfilter. induction dirs as [|d dirs IH]; [done|]. simpl.
    rewrite (Hex d) by (by left). simpl. apply IH. intros x Hx. apply Hex. by right. }
  rewrite ignoreDirectory_eq, Hfilter, Hnone. cbn [map world]. split; [done|].
  set (w1 := withIgnored _ w).
  destruct (unignoreDirectory_facts dirs w1) as (Hc & Hw & _ & _ & Htrace).
  cbv zeta in *.
  rewrite (result_pure _ _ Hc); [f_equal|].
  - rewrite Hw. unfold w1, withIgnored.
    cbn [this chokidar set_ignoredDirectories ignoredDirectories].
    replace ((ignoredDirectories (this w) ∪ list_to_set dirs) ∖ list_to_set dirs)
      with (ignoredDirectories (this w)).
    + apply withIgnored_same.
    + apply set_eq. intros x.
      rewrite elem_of_difference, elem_of_union, elem_of_list_to_set.
      split; [|tauto]. intros Hx. split; [by left|]. intros Hd. by apply (Hout x).
  - apply Htrace; [done|]. intros d Hd. unfold w1, withIgnored. simpl.
    apply elem_of_union_r. by apply elem_of_list_to_set.
Qed.

Lemma ignore_then_unignore_restores_witness :
  let fs : FS := {[ "/base/a" := Dir NoEntry; "/base/b" := Dir NoEntry ]} in
  let w := newWorld 1 "/base" None in
  NoDup ["/base/a"; "/base/b"]
  /\ unignoreDirectory ["/base/a"; "/base/b"]
       (world (ignoreDirectory fs ["/base/a"; "/base/b"] w))
     = mkResult w [] (Normal tt).
Proof.
  intros fs w.
  assert (Hnodup : NoDup ["/base/a"; "/base/b"]).
  { apply NoDup_cons. split; [|apply NoDup_singleton].
    intros H. by apply list_elem_of_singleton in H. }
  split; [exact Hnodup|].
  apply (ignore_then_unignore_restores fs ["/base/a"; "/base/b"] w Hnodup).
  - intros d Hd. apply elem_of_cons in Hd as [->|Hd]; [reflexivity|].
    apply list_elem_of_singleton in Hd as ->. reflexivity.
  - intros d _. simpl. apply not_elem_of_empty.
Defined.

(** ** Ignoring and the notifications *)




(** ** [setAllowedExtensions] *)

Lemma of_to_string (l : Chars.chars) : Chars.of_string (Chars.to_string l) = l.
Proof. apply list_ascii_of_string_of_list_ascii. Qed.

Lemma lowerChar_dot (c : ascii) : Chars.lowerChar c = "."%char -> c = "."%char.
Proof.
  unfold Chars.lowerChar. destruct (_ && _) eqn:Hup; [|done].
  apply andb_true_iff in Hup as [Hlo Hhi].
  apply Nat.leb_le in Hlo, Hhi. intros H.
  apply (f_equal nat_of_ascii) in H. rewrite nat_ascii_embedding in H by lia.
  change (nat_of_ascii "."%char) with 46 in H. exfalso. lia.
Qed.

Lemma toLowerCase_cons c rest :
  Chars.toLowerCase (String c rest)
  = String (Chars.lowerChar c) (Chars.toLowerCase rest).
Proof. reflexivity. Qed.

(** The extension [handleEvent] tests is empty or starts with a dot. *)
Lemma extensionOf_shape filePath :
  extensionOf filePath = "" \/ exists rest, extensionOf filePath = String "."%char rest.
Proof.
  unfold extensionOf, Path.extname, Chars.toLowerCase. rewrite of_to_string.
  unfold Path.extnameC.
  destruct (Chars.dropWhile _ _) as [|dot rpre]; [by left|].
  destruct rpre; [by left|].
  destruct (Chars.eqb _ _); [by left|]. right. simpl. eauto.
Qed.

Lemma allowedExtensions_after_set exts w :
  allowedExtensions (this (world (setAllowedExtensions exts w)))
  = list_to_set (map Chars.toLowerCase exts).
Proof. reflexivity. Qed.

Lemma extensionPasses_after_set exts w filePath :
  extensionPasses (this (world (setAllowedExtensions exts w))) filePath
  <-> exts = [] \/ exists e, e ∈ exts /\ Chars.toLowerCase e = extensionOf filePath.
Proof.
  unfold extensionPasses. rewrite allowedExtensions_after_set.
  rewrite elem_of_list_to_set, list_elem_of_fmap. split.
  - intros [Hempty|(e & He & Hin)]; [|right; eauto].
    left. destruct exts as [|e exts]; [done|]. exfalso.
    assert (Hin : Chars.toLowerCase e ∈ (list_to_set (map Chars.toLowerCase (e :: exts))
                                          : gset string)).
    { apply elem_of_list_to_set. by left. }
    rewrite Hempty in Hin. by apply not_elem_of_empty in Hin.
  - intros [->|(e & Hin & He)]; [by left|]. right. eauto.
Qed.

Lemma handleEvent_dropped_by_extension rt eventType directory filePath w :
  ~ extensionPasses (this w) filePath ->
  trace (handleEvent rt eventType directory filePath w) = [].
Proof.
  intros Hno. rewrite handleEvent_eq. cbv zeta. destruct (rt _ _); [|done].
  destruct (_ && _) eqn:Hgate; [done|]. by apply extension_gate in Hgate.
Qed.

Lemma lowered_set_iff (lower : string -> string) (exts : list string)
  (extension : string) :
  ((list_to_set (map lower exts) : gset string) = ∅
   \/ extension ∈ (list_to_set (map lower exts) : gset string))
  <-> exts = [] \/ exists e, e ∈ exts /\ lower e = extension.
Proof.
  rewrite elem_of_list_to_set, list_elem_of_fmap. split.
  - intros [Hempty|(e & He & Hin)]; [|right; eauto].
    left. destruct exts as [|e exts]; [done|]. exfalso.
    assert (Hin : lower e ∈ (list_to_set (map lower (e :: exts)) : gset string)).
    { apply elem_of_list_to_set. by left. }
    rewrite Hempty in Hin. by apply not_elem_of_empty in Hin.
  - intros [->|(e & Hin & He)]; [by left|]. right. eauto.
Qed.

(** X11.  [setAllowedExtensions] replaces the filter, whatever it was, and
    the filter compares lower-cased forms, whatever
    [String.prototype.toLowerCase] does (the theorem is about
    [setAllowedExtensionsWith] and [handleEventWith], for every
    lower-casing function).  After the call with a non-empty argument
    list, a notification for a file is dropped when no argument, lower
    cased, is the lower-cased extension of the file.  When the list is
    empty or has such an argument, the extension filter lets the
    notification through: unless it is an "add" of an initial file (or the
    pattern does not compile), the event is emitted. *)
Theorem setAllowedExtensions_filters_case_insensitively
  (toLowerCase : string -> string)
  (rt : string -> string -> option string) (exts : list string) (w : World)
  (eventType : EventKind) (directory filePath : string) :
  let w' := world (setAllowedExtensionsWith toLowerCase exts w) in
  let extension := toLowerCase (Path.extname (Path.basename filePath)) in
  (exts <> [] ->
   (forall e, e ∈ exts -> toLowerCase e <> extension) ->
   trace (handleEventWith toLowerCase rt eventType directory filePath w') = [])
  /\ (exts = [] \/ (exists e, e ∈ exts /\ toLowerCase e = extension) ->
      forall rel,
        rt (Path.basename filePath) (relativeOf (this w) filePath) = Some rel ->
        ~ (filePath ∈ initialFiles (this w) /\ eventType = Add) ->
        exists calls,
          trace (handleEventWith toLowerCase rt eventType directory filePath w')
          = Emit eventType directory (Path.basename filePath)
              (baseDir (this w) ++ "/" ++ rel) :: calls)
  /\ (forall before,
        world (setAllowedExtensionsWith toLowerCase exts
                 (world (setAllowedExtensionsWith toLowerCase before w))) = w').
Proof.
  cbv zeta. split_and!.
  - intros Hne Hnone. rewrite handleEventWith_eq. cbv zeta.
    destruct (rt _ _); [|done].
    destruct (_ && _) eqn:Hgate; [done|]. exfalso.
    apply extension_gate_for in Hgate.
    apply (lowered_set_iff toLowerCase exts) in Hgate as [->|(e & He & Heq)]; [done|].
    by apply (Hnone e).
  - intros Hpass rel Hrel Hinit. rewrite handleEventWith_eq. cbv zeta.
    change (relativeOf (this (world (setAllowedExtensionsWith toLowerCase exts w)))
              filePath) with (relativeOf (this w) filePath).
    rewrite Hrel.
    apply (lowered_set_iff toLowerCase exts), extension_gate_for in Hpass.
    cbn [world this setAllowedExtensionsWith modifyThis set_allowedExtensions
         allowedExtensions initialFiles baseDir].
    rewrite Hpass.
    replace (bool_decide (filePath ∈ initialFiles (this w)) && bool_decide (eventType = Add))
      with false.
    + destruct (findHandler _ _ _); eauto.
    + symmetry. apply andb_false_iff.
      destruct (decide (filePath ∈ initialFiles (this w))) as [Hin|Hin].
      * right. apply bool_decide_eq_false_2. tauto.
      * left. by apply bool_decide_eq_false_2.
  - reflexivity.
Qed.

Lemma setAllowedExtensions_filters_case_insensitively_witness :
  let w := newWorld 1 "/base" None in
  let w' := world (setAllowedExtensionsWith Chars.toLowerCase [".Md"; ".TXT"] w) in
  [".Md"; ".TXT"] <> []
  /\ trace (handleEventWith Chars.toLowerCase Regex.replaceTail Change "/base"
              "/base/notes/a.js" w') = []
  /\ exists calls,
       trace (handleEventWith Chars.toLowerCase Regex.replaceTail Change "/base"
                "/base/notes/README.MD" w')
       = Emit Change "/base" "README.MD" "/base/notes" :: calls.
Proof.
  intros w w'.
  destruct (setAllowedExtensions_filters_case_insensitively Chars.toLowerCase
              Regex.replaceTail [".Md"; ".TXT"] w Change "/base"
              "/base/notes/a.js") as (Hdrop & _ & _).
  destruct (setAllowedExtensions_filters_case_insensitively Chars.toLowerCase
              Regex.replaceTail [".Md"; ".TXT"] w Change "/base"
              "/base/notes/README.MD") as (_ & Hpass & _).
  split; [discriminate|]. split.
  - apply Hdrop; [discriminate|]. intros e He.
    apply elem_of_cons in He as [->|He]; [discriminate|].
    apply list_elem_of_singleton in He as ->. discriminate.
  - apply (Hpass (or_intror (ex_intro _ ".Md" (conj (list_elem_of_here _ _) eq_refl)))
             "notes" eq_refl).
    intros [_ [=]].
Defined.

(** X12.  An allowed extension must carry its dot.  When every argument of
    [setAllowedExtensions] is a non-empty string that does not start with
    a dot, no file has such an extension, and every notification is
    dropped. *)
Theorem setAllowedExtensions_without_dot_drops_everything
  (rt : string -> string -> option string) (exts : list string) (w : World)
  (eventType : EventKind) (directory filePath : string) :
  exts <> [] ->
  (forall e, e ∈ exts -> exists c rest, e = String c rest /\ c <> "."%char) ->
  trace (handleEvent rt eventType directory filePath
           (world (setAllowedExtensions exts w))) = [].
Proof.
  intros Hne Hdotless. apply handleEvent_dropped_by_extension.
  rewrite extensionPasses_after_set. intros [->|(e & He & Heq)]; [done|].
  destruct (Hdotless e He) as (c & rest & -> & Hc).
  rewrite toLowerCase_cons in Heq.
  destruct (extensionOf_shape filePath) as [Hshape|[tail Hshape]];
    rewrite Hshape in Heq; [done|].
  injection Heq as Heq _. by apply lowerChar_dot in Heq.
Qed.

Lemma setAllowedExtensions_without_dot_drops_everything_witness :
  ["js"] <> []
  /\ trace (handleEvent Regex.replaceTail Change "/base" "/base/src/app.js"
              (world (setAllowedExtensions ["js"] (newWorld 1 "/base" None)))) = [].
Proof.
  split; [discriminate|].
  apply setAllowedExtensions_without_dot_drops_everything; [discriminate|].
  intros e He. apply list_elem_of_singleton in He as ->.
  exists "j"%char, "s". split; [reflexivity | discriminate].
Defined.

(** ** [setMonitoredDirectories] *)

Lemma insertionOrder_spec xs :
  forall seen,
    NoDup (insertionOrder seen xs)
    /\ forall x, x ∈ insertionOrder seen xs <-> x ∈ xs /\ x ∉ seen.
Proof.
  induction xs as [|y xs IH]; intros seen; simpl.
  - split; [constructor|]. intros x. rewrite elem_of_nil. tauto.
  - case_bool_decide as Hy.
    + destruct (IH seen) as [Hnd Hin]. split; [done|].
      intros x. rewrite Hin, elem_of_cons. split; [tauto|].
      intros [[->|Hx] Hout]; [done | tauto].
    + destruct (IH (y :: seen)) as [Hnd Hin]. split.
      * apply NoDup_cons. split; [|done]. rewrite Hin, elem_of_cons. tauto.
      * intros x. rewrite !elem_of_cons, Hin, elem_of_cons.
        destruct (decide (x = y)) as [->|Hxy]; tauto.
Qed.

Lemma resolveLoop_absolute cwd l :
  Path.isAbsoluteC cwd = true ->
  forall acc, snd (Path.resolveLoop (l ++ [cwd]) acc) = true.
Proof.
  intros Habs. induction l as [|p l IH]; intros acc; simpl.
  - destruct cwd as [|c cwd]; [done|]. by rewrite Habs.
  - destruct p as [|c p]; [apply IH|].
    destruct (Path.isAbsoluteC (c :: p)); [done | apply IH].
Qed.

Lemma resolve_absolute cwd args :
  Path.isAbsolute cwd = true -> Path.isAbsolute (Path.resolve cwd args) = true.
Proof.
  unfold Path.isAbsolute, Path.resolve. intros Habs. rewrite of_to_string.
  unfold Path.resolveC.
  pose proof (resolveLoop_absolute _ (rev (map Chars.of_string args)) Habs []) as Hloop.
  destruct (Path.resolveLoop _ _) as [resolvedPath resolvedAbsolute].
  simpl in Hloop. subst. reflexivity.
Qed.

(** X13.  [setMonitoredDirectories] replaces the set, whatever it was, by
    its arguments resolved against the base directory: the set has no
    duplicate, its elements are exactly the resolved arguments, and with
    an absolute base directory each of them is absolute.  [startWatching]
    then works on that set, or on the base directory when the argument
    list was empty. *)
Theorem setMonitoredDirectories_resolves_and_replaces (dirs : list string) (w : World) :
  let w' := world (setMonitoredDirectories dirs w) in
  let resolved dir := Path.resolve (baseDir (this w)) [baseDir (this w); dir] in
  NoDup (monitoredDirectories (this w'))
  /\ (forall m, m ∈ monitoredDirectories (this w')
                <-> exists dir, dir ∈ dirs /\ m = resolved dir)
  /\ (Path.isAbsolute (baseDir (this w)) = true ->
      forall m, m ∈ monitoredDirectories (this w') -> Path.isAbsolute m = true)
  /\ (dirs = [] -> effectiveDirectories (this w') = [baseDir (this w)])
  /\ (dirs <> [] -> effectiveDirectories (this w') = monitoredDirectories (this w'))
  /\ (forall before,
        world (setMonitoredDirectories dirs (world (setMonitoredDirectories before w)))
        = w').
Proof.
  cbv zeta.
  set (resolved := fun dir => Path.resolve (baseDir (this w)) [baseDir (this w); dir]).
  assert (Hmon : monitoredDirectories (this (world (setMonitoredDirectories dirs w)))
                 = insertionOrder [] (map resolved dirs)) by reflexivity.
  destruct (insertionOrder_spec (map resolved dirs) []) as [Hnd Hin].
  assert (Hmem : forall m, m ∈ monitoredDirectories
                                 (this (world (setMonitoredDirectories dirs w)))
                           <-> exists dir, dir ∈ dirs /\ m = resolved dir).
  { intros m. rewrite Hmon, Hin, list_elem_of_fmap. split.
    - intros [(dir & -> & Hdir) _]. eauto.
    - intros (dir & Hdir & ->). split; [eauto|]. apply not_elem_of_nil. }
  split_and!.
  - by rewrite Hmon.
  - exact Hmem.
  - intros Habs m Hm. apply Hmem in Hm as (dir & _ & ->). by apply resolve_absolute.
  - intros ->. reflexivity.
  - intros Hne. unfold effectiveDirectories. rewrite Hmon.
    destruct dirs as [|d dirs]; [done|]. reflexivity.
  - reflexivity.
Qed.

Lemma setMonitoredDirectories_resolves_and_replaces_witness :
  let w := newWorld 1 "/home/u" None in
  let w' := world (setMonitoredDirectories ["./test"; "test"; "/srv/www"] w) in
  Path.isAbsolute (baseDir (this w)) = true
  /\ monitoredDirectories (this w') = ["/home/u/test"; "/srv/www"]
  /\ effectiveDirectories (this w') = ["/home/u/test"; "/srv/www"]
  /\ forall m, m ∈ monitoredDirectories (this w') -> Path.isAbsolute m = true.
Proof.
  intros w w'.
  destruct (setMonitoredDirectories_resolves_and_replaces
              ["./test"; "test"; "/srv/www"] w) as (_ & _ & Habs & _ & Heff & _).
  split; [reflexivity|]. split; [reflexivity|]. split.
  - etrans; [apply Heff; discriminate | reflexivity].
  - apply Habs. reflexivity.
Defined.

(** ** [startWatching] *)

Lemma sameChokidar_refl w : sameChokidar w w.
Proof. done. Qed.

Lemma sameChokidar_trans a b c : sameChokidar a b -> sameChokidar b c -> sameChokidar a c.
Proof. unfold sameChokidar. congruence. Qed.

Lemma captureInitialFiles_sameChokidar fs directory :
  keeps sameChokidar (captureInitialFiles fs directory).
Proof.
  intros w. unfold captureInitialFiles.
  by destruct (fs !! directory) as [[|entries]|].
Qed.

Lemma captureInitialFiles_throws fs directory w :
  (forall entries, fs !! directory <> Some (Dir entries)) ->
  captureInitialFiles fs directory w = mkResult w [] (Throw (readdirError fs directory)).
Proof.
  intros Hno. unfold captureInitialFiles, readdirError.
  destruct (fs !! directory) as [[|entries]|]; [done| |done]. by destruct (Hno entries).
Qed.

Lemma captureInitialFiles_returns fs directory entries w :
  fs !! directory = Some (Dir entries) ->
  captureInitialFiles fs directory w
  = mkResult
      (mkWorld (set_initialFiles
                  (captureEntries directory entries (initialFiles (this w))) (this w))
               (chokidar w))
      [] (Normal tt).
Proof. intros H. unfold captureInitialFiles. by rewrite H. Qed.

(** The scan loop stops at the first path that is not a directory. *)
Lemma forOf_capture_throws fs pre directory post :
  (forall entries, fs !! directory <> Some (Dir entries)) ->
  forall w,
    (forall x, x ∈ pre -> exists entries, fs !! x = Some (Dir entries)) ->
    forOf (pre ++ directory :: post) (captureInitialFiles fs) w
    = mkResult (world (forOf pre (captureInitialFiles fs) w)) []
        (Throw (readdirError fs directory)).
Proof.
  intros Hno. induction pre as [|x pre IH]; intros w Hpre.
  - change (forOf ([] ++ directory :: post) (captureInitialFiles fs))
      with (bind (captureInitialFiles fs directory)
              (fun _ => forOf post (captureInitialFiles fs))).
    unfold bind. by rewrite captureInitialFiles_throws.
  - destruct (Hpre x) as [entries Hx]; [by left|].
    change (forOf ((x :: pre) ++ directory :: post) (captureInitialFiles fs))
      with (bind (captureInitialFiles fs x)
              (fun _ => forOf (pre ++ directory :: post) (captureInitialFiles fs))).
    change (forOf (x :: pre) (captureInitialFiles fs))
      with (bind (captureInitialFiles fs x)
              (fun _ => forOf pre (captureInitialFiles fs))).
    rewrite !(bind_pure _ _ _ _ _ (captureInitialFiles_returns fs x entries w Hx)).
    apply IH. intros y Hy. apply Hpre. by right.
Qed.

(** Whatever the scan loop leaves in the set was there or is a regular
    file of one of the trees. *)
Lemma forOf_capture_sound fs dirs :
  forall w p,
    p ∈ initialFiles (this (world (forOf dirs (captureInitialFiles fs) w))) ->
    p ∈ initialFiles (this w)
    \/ exists d entries, d ∈ dirs /\ fs !! d = Some (Dir entries) /\ FileAt d entries p.
Proof.
  induction dirs as [|d dirs IH]; intros w p Hp; [by left|].
  change (forOf (d :: dirs) (captureInitialFiles fs))
    with (bind (captureInitialFiles fs d) (fun _ => forOf dirs (captureInitialFiles fs)))
    in Hp.
  destruct (fs !! d) as [[|entries]|] eqn:Hd.
  - unfold bind in Hp. rewrite captureInitialFiles_throws in Hp by (rewrite Hd; done).
    by left.
  - rewrite (bind_pure _ _ _ _ _ (captureInitialFiles_returns fs d entries w Hd)) in Hp.
    apply IH in Hp as [Hp|(d' & entries' & Hd' & Hfs & Hfile)].
    + simpl in Hp. apply captureEntries_sound in Hp as [Hp|Hp]; [by left|].
      right. exists d, entries. split; [by left | done].
    + right. exists d', entries'. split; [by right | done].
  - unfold bind in Hp. rewrite captureInitialFiles_throws in Hp by (rewrite Hd; done).
    by left.
Qed.

(** What the subscription loop does to the registry. *)
Lemma forOf_watchDirectory_registry dirs :
  forall w,
    (forall d, d ∈ dirs ->
       is_Some (watchers (this (world (forOf dirs watchDirectory w))) !! d))
    /\ (forall d id, watchers (this w) !! d = Some id ->
          watchers (this (world (forOf dirs watchDirectory w))) !! d = Some id)
    /\ (forall d, is_Some (watchers (this (world (forOf dirs watchDirectory w))) !! d) ->
          is_Some (watchers (this w) !! d) \/ d ∈ dirs).
Proof.
  induction dirs as [|x dirs IH]; intros w.
  - split_and!; [intros d Hd; by apply elem_of_nil in Hd | done | by left].
  - change (forOf (x :: dirs) watchDirectory)
      with (bind (watchDirectory x) (fun _ => forOf dirs watchDirectory)).
    pose proof (watchDirectory_eq x w) as Hw.
    destruct (watchers (this w) !! x) as [id0|] eqn:Hx; cbv zeta in Hw;
      rewrite (bind_pure _ _ _ _ _ Hw).
    + destruct (IH w) as (Hall & Hkeep & Honly). split_and!.
      * intros d Hd. apply elem_of_cons in Hd as [->|Hd]; [|by apply Hall].
        rewrite (Hkeep x id0 Hx). by eexists.
      * exact Hkeep.
      * intros d Hd. apply Honly in Hd as [Hd|Hd]; [by left | right; by right].
    + set (w1 := mkWorld _ _) in *.
      destruct (IH w1) as (Hall & Hkeep & Honly). split_and!.
      * intros d Hd. apply elem_of_cons in Hd as [->|Hd]; [|by apply Hall].
        rewrite (Hkeep x (nextWatcher (chokidar w))); [by eexists|].
        unfold w1. simpl. by rewrite lookup_insert_eq.
      * intros d id Hd. apply Hkeep. unfold w1. simpl.
        rewrite lookup_insert_ne; [done|]. intros ->. congruence.
      * intros d Hd. apply Honly in Hd as [Hd|Hd]; [|right; by right].
        unfold w1 in Hd. simpl in Hd.
        destruct (decide (x = d)) as [->|Hne]; [right; by left|].
        rewrite lookup_insert_ne in Hd by done. by left.
Qed.

Lemma forOf_watchDirectory_registered dirs w :
  (forall d, d ∈ dirs -> is_Some (watchers (this w) !! d)) ->
  forOf dirs watchDirectory w = mkResult w [] (Normal tt).
Proof.
  induction dirs as [|x dirs IH]; intros Hreg; [done|].
  change (forOf (x :: dirs) watchDirectory)
    with (bind (watchDirectory x) (fun _ => forOf dirs watchDirectory)).
  destruct (Hreg x) as [id Hx]; [by left|].
  pose proof (watchDirectory_eq x w) as Hw. rewrite Hx in Hw.
  rewrite (bind_pure _ _ _ _ _ Hw). apply IH. intros d Hd. apply Hreg. by right.
Qed.

(** [startWatching] on directories that are all there: the scan loop,
    then the subscription loop. *)
Lemma startWatching_on_directories fs w :
  (forall d, d ∈ effectiveDirectories (this w) ->
     exists entries, fs !! d = Some (Dir entries)) ->
  startWatching fs w
  = forOf (effectiveDirectories (this w)) watchDirectory
      (world (forOf (effectiveDirectories (this w)) (captureInitialFiles fs) w)).
Proof.
  intros Hdirs. unfold startWatching.
  rewrite (bind_pure getThis _ w (this w) w) by reflexivity.
  fold (effectiveDirectories (this w)).
  destruct (forOf_capture fs _ w Hdirs) as (Hc & Ht & _).
  by rewrite (bind_pure _ _ _ _ _ (result_pure _ _ Hc Ht)).
Qed.

Lemma forOf_capture_registry fs dirs w :
  watchers (this (world (forOf dirs (captureInitialFiles fs) w))) = watchers (this w)
  /\ chokidar (world (forOf dirs (captureInitialFiles fs) w)) = chokidar w.
Proof.
  split.
  - apply (keeps_forOf (sameField watchers) (sameField_refl _) (sameField_trans _)).
    intros d. by apply captureInitialFiles_sameField.
  - apply (keeps_forOf sameChokidar sameChokidar_refl sameChokidar_trans).
    apply captureInitialFiles_sameChokidar.
Qed.

(** X14.  [startWatching] scans before it subscribes.  When one of the
    directories it works on is missing or is a regular file, while those
    before it are there, the call throws the error of [readdirSync] for
    that path ([ENOENT] or [ENOTDIR]), reports nothing and has opened no
    subscription: the registry and chokidar are what they were; the files
    of the directories scanned so far stay in the initial file set. *)
Theorem startWatching_throws_before_it_subscribes
  (fs : FS) (w : World) (pre : list string) (directory : string) (post : list string) :
  effectiveDirectories (this w) = pre ++ directory :: post ->
  (forall x, x ∈ pre -> exists entries, fs !! x = Some (Dir entries)) ->
  (forall entries, fs !! directory <> Some (Dir entries)) ->
  let r := startWatching fs w in
  completion r = Throw (readdirError fs directory)
  /\ trace r = []
  /\ watchers (this (world r)) = watchers (this w)
  /\ chokidar (world r) = chokidar w
  /\ initialFiles (this w) ⊆ initialFiles (this (world r))
  /\ (forall x entries p, x ∈ pre -> fs !! x = Some (Dir entries) -> FileAt x entries p ->
        p ∈ initialFiles (this (world r))).
Proof.
  intros Heff Hpre Hno. cbv zeta.
  assert (Hstart : startWatching fs w
                   = mkResult (world (forOf pre (captureInitialFiles fs) w)) []
                       (Throw (readdirError fs directory))).
  { unfold startWatching.
    rewrite (bind_pure getThis _ w (this w) w) by reflexivity.
    fold (effectiveDirectories (this w)). rewrite Heff.
    unfold bind. by rewrite (forOf_capture_throws fs pre directory post Hno w Hpre). }
  rewrite Hstart. cbn [completion trace world].
  destruct (forOf_capture_registry fs pre w) as [Hw Hc].
  destruct (forOf_capture fs pre w Hpre) as (_ & _ & Hfiles).
  split_and!; try done.
  apply (keeps_forOf grows grows_refl grows_trans pre _ (captureInitialFiles_grows fs) w).
Qed.

Lemma startWatching_throws_before_it_subscribes_witness :
  let w := world (setMonitoredDirectories ["/base"; "/gone"] (newWorld 1 "/base" None)) in
  let r := startWatching snapshotFS w in
  effectiveDirectories (this w) = ["/base"] ++ "/gone" :: []
  /\ completion r = Throw (ENOENT "/gone")
  /\ watchers (this (world r)) = ∅
  /\ "/base/old.txt" ∈ initialFiles (this (world r)).
Proof.
  intros w r.
  assert (Heff : effectiveDirectories (this w) = ["/base"] ++ "/gone" :: [])
    by reflexivity.
  destruct (startWatching_throws_before_it_subscribes snapshotFS w ["/base"] "/gone" []
              Heff) as (Hc & _ & Hw & _ & _ & Hfiles).
  - intros x Hx. apply list_elem_of_singleton in Hx as ->. eexists. reflexivity.
  - intros entries. discriminate.
  - split; [exact Heff|]. split; [exact Hc|]. split; [exact Hw|].
    apply (Hfiles "/base" (Entry "old.txt" File NoEntry) "/base/old.txt").
    + by left.
    + reflexivity.
    + apply (FileAt_here "/base" "old.txt" NoEntry).
Defined.

(** X15.  [startWatching] on directories that are all there leaves a
    subscription for each of them, keeps the subscriptions that were
    registered, and registers nothing else; where the registry and
    chokidar agreed they still do.  A second [startWatching] opens
    nothing: the registry and chokidar stay as the first left them. *)
Theorem startWatching_subscribes_each_directory_once (fs : FS) (w : World) :
  (forall d, d ∈ effectiveDirectories (this w) ->
     exists entries, fs !! d = Some (Dir entries)) ->
  let w' := world (startWatching fs w) in
  (forall d, d ∈ effectiveDirectories (this w) -> is_Some (watchers (this w') !! d))
  /\ (forall d id, watchers (this w) !! d = Some id -> watchers (this w') !! d = Some id)
  /\ (forall d, is_Some (watchers (this w') !! d) ->
        is_Some (watchers (this w) !! d) \/ d ∈ effectiveDirectories (this w))
  /\ (wellFormed w -> wellFormed w')
  /\ (forall fs2,
        (forall d, d ∈ effectiveDirectories (this w) ->
           exists entries, fs2 !! d = Some (Dir entries)) ->
        watchers (this (world (startWatching fs2 w'))) = watchers (this w')
        /\ chokidar (world (startWatching fs2 w')) = chokidar w').
Proof.
  intros Hdirs w'.
  set (dirs := effectiveDirectories (this w)) in *.
  set (w1 := world (forOf dirs (captureInitialFiles fs) w)).
  assert (Hw' : w' = world (forOf dirs watchDirectory w1)).
  { unfold w'. by rewrite startWatching_on_directories. }
  destruct (forOf_capture_registry fs dirs w) as [Hw1 _]. fold w1 in Hw1.
  destruct (forOf_watchDirectory_registry dirs w1) as (Hall & Hkeep & Honly).
  rewrite <- Hw' in Hall, Hkeep, Honly. rewrite Hw1 in Hkeep, Honly.
  split_and!; [exact Hall | exact Hkeep | exact Honly | apply startWatching_wellFormed |].
  intros fs2 Hdirs2.
  assert (Heff : effectiveDirectories (this w') = dirs).
  { apply effectiveDirectories_same; by apply startWatching_sameField. }
  rewrite startWatching_on_directories by (by rewrite Heff).
  rewrite Heff, forOf_watchDirectory_registered.
  - apply forOf_capture_registry.
  - intros d Hd. destruct (forOf_capture_registry fs2 dirs w') as [-> _]. by apply Hall.
Qed.

Lemma startWatching_subscribes_each_directory_once_witness :
  let w := newWorld 1 "/base" None in
  let w' := world (startWatching snapshotFS w) in
  is_Some (watchers (this w') !! "/base")
  /\ chokidar (world (startWatching laterFS w')) = chokidar w'.
Proof.
  intros w w'.
  destruct (startWatching_subscribes_each_directory_once snapshotFS w)
    as (Hall & _ & _ & _ & Hagain).
  - intros d Hd. apply list_elem_of_singleton in Hd as ->. eexists. reflexivity.
  - split; [apply Hall; by left|].
    apply (Hagain laterFS). intros d Hd.
    apply list_elem_of_singleton in Hd as ->. eexists. reflexivity.
Defined.

Lemma startWatching_initialFiles fs w :
  initialFiles (this (world (startWatching fs w)))
  = initialFiles (this (world (forOf (effectiveDirectories (this w))
                                 (captureInitialFiles fs) w))).
Proof.
  unfold startWatching.
  rewrite (bind_pure getThis _ w (this w) w) by reflexivity.
  fold (effectiveDirectories (this w)).
  unfold bind.
  destruct (completion (forOf _ (captureInitialFiles fs) w)); cbn [world]; [|reflexivity].
  apply (keeps_forOf (sameField initialFiles) (sameField_refl _) (sameField_trans _)).
  intros d. by apply watchDirectory_sameField.
Qed.

(** X16.  The snapshot is exact.  Whatever [startWatching] does, a path
    that is in the initial file set afterwards was in it before or is the
    joined path of a regular file below one of the directories; when the
    directories are all there, the set afterwards is exactly the set
    before and those files.  Directories themselves are never recorded. *)
Theorem startWatching_records_exactly_the_files (fs : FS) (w : World) (p : string) :
  let recorded :=
    exists d entries,
      d ∈ effectiveDirectories (this w)
      /\ fs !! d = Some (Dir entries) /\ FileAt d entries p in
  (p ∈ initialFiles (this (world (startWatching fs w))) ->
     p ∈ initialFiles (this w) \/ recorded)
  /\ ((forall d, d ∈ effectiveDirectories (this w) ->
         exists entries, fs !! d = Some (Dir entries)) ->
      (p ∈ initialFiles (this (world (startWatching fs w)))
       <-> p ∈ initialFiles (this w) \/ recorded)).
Proof.
  cbv zeta. rewrite startWatching_initialFiles.
  split; [apply forOf_capture_sound|].
  intros Hdirs. split; [apply forOf_capture_sound|].
  intros [Hp|(d & entries & Hd & Hfs & Hfile)].
  - by apply (keeps_forOf grows grows_refl grows_trans _ _
                (captureInitialFiles_grows fs) w).
  - destruct (forOf_capture fs _ w Hdirs) as (_ & _ & Hfiles). by eapply Hfiles.
Qed.

Lemma startWatching_records_exactly_the_files_witness :
  let fs : FS :=
    {[ "/base" := Dir (Entry "a.txt" File
                         (Entry "sub" (Dir (Entry "b.txt" File NoEntry)) NoEntry)) ]} in
  let w' := world (startWatching fs (newWorld 1 "/base" None)) in
  "/base/sub/b.txt" ∈ initialFiles (this w')
  /\ "/base/sub" ∉ initialFiles (this w').
Proof.
  intros fs w'. split.
  - apply (startWatching_records_exactly_the_files fs (newWorld 1 "/base" None)
             "/base/sub/b.txt").
    + intros d Hd. apply list_elem_of_singleton in Hd as ->. eexists. reflexivity.
    + right. eexists "/base", _. split; [by left|]. split; [reflexivity|].
      apply FileAt_later, FileAt_below.
      apply (FileAt_here "/base/sub" "b.txt" NoEntry).
  - vm_compute. set_solver.
Defined.

(** X17.  Stopping and starting again watches the monitored directories
    only.  After [stopWatching] and a [startWatching] on directories that
    are all there, the registry has a subscription for exactly the
    directories [startWatching] works on, and the handler table is what it
    was: a directory that got its subscription from [setHandler] alone is
    no longer watched, though its handlers are still registered. *)
Theorem restart_watches_only_the_monitored_directories (fs : FS) (w : World) :
  (forall d, d ∈ effectiveDirectories (this w) ->
     exists entries, fs !! d = Some (Dir entries)) ->
  let w' := world (startWatching fs (world (stopWatching w))) in
  (forall d, is_Some (watchers (this w') !! d) <-> d ∈ effectiveDirectories (this w))
  /\ dirHandlers (this w') = dirHandlers (this w).
Proof.
  intros Hdirs w'.
  set (w0 := world (stopWatching w)).
  assert (Heff : effectiveDirectories (this w0) = effectiveDirectories (this w)).
  { apply effectiveDirectories_same; by apply stopWatching_sameField. }
  assert (Hempty : watchers (this w0) = ∅).
  { unfold w0. by rewrite stopWatching_eq. }
  assert (Hdirs0 : forall d, d ∈ effectiveDirectories (this w0) ->
                             exists entries, fs !! d = Some (Dir entries))
    by (by rewrite Heff).
  assert (Hw' : w' = world (forOf (effectiveDirectories (this w0)) watchDirectory
                             (world (forOf (effectiveDirectories (this w0))
                                       (captureInitialFiles fs) w0)))).
  { unfold w'. fold w0. by rewrite startWatching_on_directories. }
  destruct (forOf_capture_registry fs (effectiveDirectories (this w0)) w0) as [Hw1 _].
  destruct (forOf_watchDirectory_registry (effectiveDirectories (this w0))
              (world (forOf (effectiveDirectories (this w0))
                        (captureInitialFiles fs) w0))) as (Hall & _ & Honly).
  rewrite <- Hw' in Hall, Honly. rewrite Hw1, Hempty, Heff in Honly.
  rewrite Heff in Hall. split.
  - intros d. split; [|apply Hall].
    intros Hd. apply Honly in Hd as [[id Hd]|Hd]; [|done].
    by rewrite lookup_empty in Hd.
  - transitivity (dirHandlers (this w0)).
    + by apply (startWatching_sameField dirHandlers fs).
    + by apply (stopWatching_sameField dirHandlers).
Qed.

Lemma restart_watches_only_the_monitored_directories_witness :
  let w' := world (startWatching snapshotFS (world (stopWatching twoHandlers))) in
  is_Some (watchers (this twoHandlers) !! "/a/b")
  /\ handlerAt (dirHandlers (this w')) Change "/a/b" = Some handlerB
  /\ watchers (this w') !! "/a/b" = None
  /\ is_Some (watchers (this w') !! "/base").
Proof.
  intros w'.
  destruct (restart_watches_only_the_monitored_directories snapshotFS twoHandlers)
    as [Hreg Hhandlers].
  - intros d Hd. apply list_elem_of_singleton in Hd as ->. eexists. reflexivity.
  - fold w' in Hreg, Hhandlers.
    split; [by exists 1|]. split; [by rewrite Hhandlers|]. split.
    + apply eq_None_not_Some. rewrite Hreg. intros Hin.
      by apply list_elem_of_singleton in Hin.
    + apply Hreg. by left.
Defined.

(** ** The path [handleEvent] hands out *)

Lemma of_string_app (a b : string) :
  Chars.of_string (a ++ b) = Chars.of_string a ++ Chars.of_string b.
Proof. induction a as [|c a IH]; simpl; [done|]. by rewrite <- IH. Qed.

Lemma to_of_string (s : string) : Chars.to_string (Chars.of_string s) = s.
Proof. apply string_of_list_ascii_of_string. Qed.

Lemma matchChar_refl (c : ascii) : Regex.matchChar c c = true.
Proof.
  unfold Regex.matchChar, Chars.isDot.
  destruct (Ascii.eqb c "."%char) eqn:Hdot; [|apply Ascii.eqb_refl].
  apply Ascii.eqb_eq in Hdot as ->. reflexivity.
Qed.

Lemma matchChars_refl (name : Chars.chars) : Regex.matchChars name name = true.
Proof. induction name as [|c name IH]; simpl; [done|]. by rewrite matchChar_refl, IH. Qed.

(** The pattern strips a separator and the name off the end. *)
Lemma replaceTailC_strips (name sub : Chars.chars) :
  Regex.replaceTailC name (sub ++ "/"%char :: name) = sub.
Proof.
  unfold Regex.replaceTailC.
  replace (length (sub ++ "/"%char :: name) - S (length name))%nat with (length sub)
    by (rewrite length_app; simpl; lia).
  rewrite drop_app_length, take_app_length.
  replace (S (length name) <=? length (sub ++ "/"%char :: name))%nat with true
    by (symmetry; apply Nat.leb_le; rewrite length_app; simpl; lia).
  by rewrite matchChars_refl.
Qed.

(** Without a separator before the name the pattern matches nothing. *)
Lemma replaceTailC_bare (name : Chars.chars) : Regex.replaceTailC name name = name.
Proof.
  unfold Regex.replaceTailC. rewrite Nat.sub_succ_r, Nat.sub_diag.
  cbn [Nat.pred drop]. destruct name as [|c tail]; [done|].
  assert (H : (S (length (c :: tail)) <=? length (c :: tail))%nat = false)
    by (apply Nat.leb_gt; lia).
  by rewrite H.
Qed.

Lemma handleEvent_emits rt eventType directory filePath rel w :
  rt (Path.basename filePath) (relativeOf (this w) filePath) = Some rel ->
  extensionPasses (this w) filePath ->
  ~ (filePath ∈ initialFiles (this w) /\ eventType = Add) ->
  exists calls,
    trace (handleEvent rt eventType directory filePath w)
    = Emit eventType directory (Path.basename filePath) (baseDir (this w) ++ "/" ++ rel)
        :: calls.
Proof.
  intros Hrel Hpass Hinit. rewrite handleEvent_eq. cbv zeta. rewrite Hrel.
  apply extension_gate in Hpass. rewrite Hpass.
  replace (bool_decide (filePath ∈ initialFiles (this w)) && bool_decide (eventType = Add))
    with false.
  - destruct (findHandler _ _ _); eauto.
  - symmetry. apply andb_false_iff.
    destruct (decide (filePath ∈ initialFiles (this w))) as [Hin|Hin].
    + right. apply bool_decide_eq_false_2. tauto.
    + left. by apply bool_decide_eq_false_2.
Qed.

(** X18.  What line 94 makes of the relative path, for a file name without
    pattern syntax and an event that passes the filters.  When the path of
    the file relative to the base directory is a directory part, a
    separator and the file name, the path handed out is the base
    directory joined with that directory part; when it is the bare file
    name, nothing is stripped and the path handed out ends in the file
    name. *)
Theorem handleEvent_strips_the_file_name_after_a_separator
  (w : World) (eventType : EventKind) (directory filePath : string) :
  Regex.plainName (Chars.of_string (Path.basename filePath)) = true ->
  extensionPasses (this w) filePath ->
  ~ (filePath ∈ initialFiles (this w) /\ eventType = Add) ->
  (forall sub,
     relativeOf (this w) filePath = (sub ++ "/" ++ Path.basename filePath)%string ->
     exists calls,
       trace (handleEvent Regex.replaceTail eventType directory filePath w)
       = Emit eventType directory (Path.basename filePath)
           (baseDir (this w) ++ "/" ++ sub) :: calls)
  /\ (relativeOf (this w) filePath = Path.basename filePath ->
      exists calls,
        trace (handleEvent Regex.replaceTail eventType directory filePath w)
        = Emit eventType directory (Path.basename filePath)
            (baseDir (this w) ++ "/" ++ Path.basename filePath) :: calls).
Proof.
  intros Hplain Hpass Hinit. split.
  - intros sub Hrel. apply handleEvent_emits; [|done|done].
    rewrite Hrel. unfold Regex.replaceTail. rewrite Hplain.
    rewrite !of_string_app. simpl.
    by rewrite replaceTailC_strips, to_of_string.
  - intros Hrel. apply handleEvent_emits; [|done|done].
    rewrite Hrel. unfold Regex.replaceTail. rewrite Hplain.
    by rewrite replaceTailC_bare, to_of_string.
Qed.

Lemma handleEvent_strips_the_file_name_after_a_separator_witness :
  let w := newWorld 1 "/base" None in
  Regex.plainName (Chars.of_string (Path.basename "/base/a/b/x.js")) = true
  /\ relativeOf (this w) "/base/a/b/x.js" = ("a/b" ++ "/" ++ "x.js")%string
  /\ relativeOf (this w) "/base/x.js" = "x.js"
  /\ (exists calls,
        trace (handleEvent Regex.replaceTail Change "/base" "/base/a/b/x.js" w)
        = Emit Change "/base" "x.js" "/base/a/b" :: calls)
  /\ (exists calls,
        trace (handleEvent Regex.replaceTail Change "/base" "/base/x.js" w)
        = Emit Change "/base" "x.js" "/base/x.js" :: calls).
Proof.
  intros w.
  assert (Hno : forall p, ~ (p ∈ initialFiles (this w) /\ Change = Add))
    by (intros p [_ [=]]).
  destruct (handleEvent_strips_the_file_name_after_a_separator w Change "/base"
              "/base/a/b/x.js" eq_refl (or_introl eq_refl) (Hno _)) as [Hsub _].
  destruct (handleEvent_strips_the_file_name_after_a_separator w Change "/base"
              "/base/x.js" eq_refl (or_introl eq_refl) (Hno _)) as [_ Hbare].
  split; [reflexivity|]. split; [reflexivity|]. split; [reflexivity|]. split.
  - exact (Hsub "a/b" eq_refl).
  - exact (Hbare eq_refl).
Defined.

(** ** Handlers over a session *)

Lemma runOp_dirHandlers rt op w :
  (forall d k callback, op <> OpSetHandler d k callback) ->
  dirHandlers (this (world (runOp rt op w))) = dirHandlers (this w).
Proof.
  intros Hop. destruct op as [fs| |d k cb|fs ds|ds|es|ds|id k p|id k p]; simpl.
  - by apply (startWatching_sameField dirHandlers).
  - by apply (stopWatching_sameField dirHandlers).
  - by destruct (Hop d k cb).
  - by rewrite ignoreDirectory_eq.
  - by destruct (unignoreDirectory_facts ds w) as (_ & -> & _).
  - reflexivity.
  - reflexivity.
  - by rewrite notify_world.
  - by rewrite deliver_world.
Qed.

(** X19.  Handlers are registered for good, and the latest registration
    wins.  After any session of operations and notifications, the
    callback registered for a directory and kind is the one of the last
    [setHandler] of the session for that pair, or, when the session has
    none, the one registered before: nothing removes a handler, and no
    other operation touches the table. *)
Theorem session_keeps_the_last_registration
  (rt : string -> string -> option string) (ops : list Op) (w : World)
  (directory : string) (eventType : EventKind) :
  handlerAt (dirHandlers (this (runOps rt ops w))) eventType directory
  = match lastRegistration ops directory eventType with
    | Some callback => Some callback
    | None => handlerAt (dirHandlers (this w)) eventType directory
    end.
Proof.
  revert w. induction ops as [|op ops IH]; intros w; simpl; [done|].
  rewrite IH. destruct (lastRegistration ops directory eventType); [done|].
  destruct op as [fs| |d k cb|fs ds|ds|es|ds|id k p|id k p];
    try (by rewrite runOp_dirHandlers).
  cbn [runOp]. rewrite setHandler_dirHandlers, handlerAt_withHandler.
  rewrite (bool_decide_ext (directory = d /\ eventType = k) (d = directory /\ k = eventType))
    by (split; intros [-> ->]; done).
  by destruct (bool_decide _).
Qed.

(** ** Relative and absolute directories *)

Lemma isAbsolute_to_string (l : Chars.chars) :
  Path.isAbsolute (Chars.to_string l) = Path.isAbsoluteC l.
Proof. unfold Path.isAbsolute. by rewrite of_to_string. Qed.

Lemma dirname_absolute (p : string) :
  Path.isAbsolute p = true -> Path.isAbsolute (Path.dirname p) = true.
Proof.
  unfold Path.dirname. rewrite isAbsolute_to_string. unfold Path.isAbsolute.
  destruct (Chars.of_string p) as [|c0 rest]; [done|]. simpl. intros Hroot.
  rewrite Hroot. destruct (Chars.dropWhile _ (Chars.dropWhile _ _)); [done|].
  destruct (_ && _); simpl; done.
Qed.

Lemma ancestors_absolute directory x :
  Path.isAbsolute directory = true -> x ∈ ancestors directory ->
  Path.isAbsolute x = true.
Proof.
  intros Habs Hx. apply list_elem_of_lookup in Hx as [i Hi].
  destruct (ancestorWalk_chain _ _ (enoughFuel_start directory)) as [Hchain _].
  destruct (Hchain i x Hi) as [-> _]. clear Hi.
  induction i as [|i IH]; [done|]. simpl. by apply dirname_absolute.
Qed.

(** X20.  A handler registered under a relative directory is not seen
    from an absolute one.  [setHandler] keeps the directory as it was
    passed and [findHandler] compares strings, so after a [setHandler] on
    a relative directory every lookup that starts from an absolute
    directory, such as the ones [setMonitoredDirectories] produces,
    answers what it answered before. *)
Theorem relative_handler_is_not_found_from_absolute_directories
  (w : World) (directory : string) (eventType : EventKind) (callback : Callback)
  (from : string) (k : EventKind) :
  Path.isAbsolute directory = false ->
  Path.isAbsolute from = true ->
  findHandler (this (world (setHandler directory eventType callback w))) from k
  = findHandler (this w) from k.
Proof.
  intros Hrel Habs. rewrite !findHandler_firstHandler, setHandler_dirHandlers.
  apply firstHandler_ext. intros x Hx. rewrite handlerAt_withHandler.
  rewrite bool_decide_eq_false_2; [done|]. intros [-> _].
  apply (ancestors_absolute from) in Hx; [|done]. congruence.
Qed.

Lemma relative_handler_is_not_found_from_absolute_directories_witness :
  let w0 := newWorld 1 "/home/u" None in
  let w := world (setMonitoredDirectories ["./test"]
                    (world (setHandler "./test" Change handlerA w0))) in
  Path.isAbsolute "./test" = false
  /\ monitoredDirectories (this w) = ["/home/u/test"]
  /\ Path.isAbsolute "/home/u/test" = true
  /\ findHandler (this w) "./test" Change = Some handlerA
  /\ findHandler (this w) "/home/u/test" Change = None.
Proof.
  intros w0 w.
  assert (Hrel : Path.isAbsolute "./test" = false) by reflexivity.
  assert (Habs : Path.isAbsolute "/home/u/test" = true) by reflexivity.
  split; [exact Hrel|]. split; [reflexivity|]. split; [exact Habs|].
  split; [reflexivity|].
  change (findHandler (this w) "/home/u/test" Change)
    with (findHandler (this (world (setHandler "./test" Change handlerA w0)))
            "/home/u/test" Change).
  rewrite (relative_handler_is_not_found_from_absolute_directories w0 "./test" Change
             handlerA "/home/u/test" Change Hrel Habs).
  reflexivity.
Defined.
